(** * vanish-ts: the Vanish e-mail client, embedded and verified

    A shallow embedding of [src/vanish.ts] (the [VanishClient] class and the
    data-transfer types it exchanges with the service), followed by the
    properties of the client that the specification states.

    Conventions of the embedding.
    - A JavaScript string is a Rocq [string]: the sequence of bytes of its
      UTF-8 encoding (for ASCII text, its characters).  Strings holding lone
      surrogates have no UTF-8 encoding and are outside the model.
    - A JavaScript number is a [Z]: the service's numbers are counts, sizes,
      status codes and millisecond clocks.  Fractions, NaN and infinities are
      outside the model.
    - [undefined] is [None] of an [option].
    - A success body has the shape that the type argument of [request<T>]
      declares: the embedding is typed as the TypeScript source is.  An
      error body is of type [any] in the source and is an arbitrary JSON
      value here.
    - The platform ([fetch], [Date.now], [setTimeout]) is a deterministic
      script [Env] that the theorems quantify over, and the client threads a
      [State] (clock, requests issued, delays slept) through its calls.
    - The loop of [pollForEmails] takes fuel; a result is stated for every
      amount of fuel above a bound. *)

From Stdlib Require Import ZArith NArith List String Ascii Bool Lia.
From stdpp Require Import gmap strings list pretty.

(** ** Platform built-ins used by the client *)

Module Js.

(** *** Characters *)

Definition code (c : ascii) : N := N_of_ascii c.

Definition between (lo hi : N) (c : ascii) : bool :=
  ((lo <=? code c) && (code c <=? hi))%N.

Definition is_digit (c : ascii) : bool := between 48 57 c.
Definition is_upper (c : ascii) : bool := between 65 90 c.
Definition is_lower (c : ascii) : bool := between 97 122 c.
Definition is_alnum (c : ascii) : bool := is_digit c || is_upper c || is_lower c.

Fixpoint mem_char (c : ascii) (s : string) : bool :=
  match s with
  | EmptyString => false
  | String d r => Ascii.eqb c d || mem_char c r
  end.

Definition hex_upper (n : N) : ascii :=
  ascii_of_N (if (n <? 10)%N then 48 + n else 55 + n).

Definition hex_lower (n : N) : ascii :=
  ascii_of_N (if (n <? 10)%N then 48 + n else 87 + n).

(** [%XX] with upper-case hexadecimal digits. *)
Definition percent (c : ascii) : string :=
  String "%" (String (hex_upper (code c / 16)) (String (hex_upper (code c mod 16)) "")).

(** *** [String(v)] for a number

    An integer is written in decimal.  (JavaScript writes an integer of 22
    digits or more with an exponent; such numbers are outside the model.) *)

Definition Number_toString (n : Z) : string := pretty n.

(** *** [encodeURIComponent]

    Leaves the unreserved characters [A-Z a-z 0-9 - _ . ! ~ * ' ( )] and
    replaces every other byte of the UTF-8 encoding by [%XX]. *)

Definition uri_unreserved (c : ascii) : bool :=
  is_alnum c || mem_char c "-_.!~*'()".

Fixpoint encodeURIComponent (s : string) : string :=
  match s with
  | EmptyString => EmptyString
  | String c r =>
      (if uri_unreserved c then String c "" else percent c)
        +:+ encodeURIComponent r
  end.

(** *** [URLSearchParams]: the application/x-www-form-urlencoded serializer

    [new URLSearchParams(pairs).toString()]: names and values are
    byte-serialized (alphanumerics and [* - . _] kept, space as [+], any
    other byte as [%XX]), written [name=value] and joined with [&]. *)

Definition form_keep (c : ascii) : bool :=
  is_alnum c || mem_char c "*-._".

Definition form_byte (c : ascii) : string :=
  if form_keep c then String c ""
  else if Ascii.eqb c " " then "+"
  else percent c.

Fixpoint form_encode (s : string) : string :=
  match s with
  | EmptyString => EmptyString
  | String c r => form_byte c +:+ form_encode r
  end.

Definition form_pair (p : string * string) : string :=
  form_encode p.1 +:+ "=" +:+ form_encode p.2.

Fixpoint URLSearchParams_toString (pairs : list (string * string)) : string :=
  match pairs with
  | [] => ""
  | [p] => form_pair p
  | p :: rest => form_pair p +:+ "&" +:+ URLSearchParams_toString rest
  end.

(** The matching parser of the URL standard, as a server applies it to the
    query: split at [&], drop empty pieces, split each piece at its first
    [=], turn [+] into a space and decode [%XX]. *)

Definition hex_value (c : ascii) : option N :=
  if is_digit c then Some (code c - 48)%N
  else if between 65 70 c then Some (code c - 55)%N
  else if between 97 102 c then Some (code c - 87)%N
  else None.

Fixpoint form_decode (s : string) : string :=
  match s with
  | EmptyString => EmptyString
  | String "+" r => String " " (form_decode r)
  | String "%" (String h (String l r) as r1) =>
      match hex_value h, hex_value l with
      | Some a, Some b => String (ascii_of_N (16 * a + b)) (form_decode r)
      | _, _ => String "%" (form_decode r1)
      end
  | String c r => String c (form_decode r)
  end.

(** [split_at d s]: the pieces of [s] between occurrences of [d]. *)
Fixpoint split_at (d : ascii) (s : string) : list string :=
  match s with
  | EmptyString => [EmptyString]
  | String c r =>
      if Ascii.eqb c d then EmptyString :: split_at d r
      else match split_at d r with
           | [] => [String c ""]
           | p :: ps => String c p :: ps
           end
  end.

(** [cut_at d s]: [s] before and after its first [d]; no [d], empty rest. *)
Fixpoint cut_at (d : ascii) (s : string) : string * string :=
  match s with
  | EmptyString => (EmptyString, EmptyString)
  | String c r =>
      if Ascii.eqb c d then (EmptyString, r)
      else let '(a, b) := cut_at d r in (String c a, b)
  end.

Definition form_parse (s : string) : list (string * string) :=
  map (fun piece => let '(n, v) := cut_at "=" piece in (form_decode n, form_decode v))
      (filter (fun piece => piece <> EmptyString) (split_at "&" s)).

(** *** [JSON.stringify] of a flat options object

    A [JsObject] is a plain object whose own properties, in insertion order,
    hold strings or [undefined]. *)

Definition JsObject : Type := list (string * option string).

Definition Object_keys (o : JsObject) : list string := map fst o.

Definition dquote : ascii := ascii_of_N 34.
Definition backslash : ascii := ascii_of_N 92.

Definition json_escape (c : ascii) : string :=
  if Ascii.eqb c dquote then String backslash (String dquote "")
  else if Ascii.eqb c backslash then String backslash (String backslash "")
  else if (code c =? 8)%N then String backslash "b"
  else if (code c =? 9)%N then String backslash "t"
  else if (code c =? 10)%N then String backslash "n"
  else if (code c =? 12)%N then String backslash "f"
  else if (code c =? 13)%N then String backslash "r"
  else if (code c <? 32)%N then
    String backslash
      ("u00" +:+ String (hex_lower (code c / 16)) (String (hex_lower (code c mod 16)) ""))
  else String c "".

Fixpoint json_escape_all (s : string) : string :=
  match s with
  | EmptyString => EmptyString
  | String c r => json_escape c +:+ json_escape_all r
  end.

Definition json_quote (s : string) : string :=
  String dquote (json_escape_all s +:+ String dquote "").

(** Properties whose value is [undefined] are left out. *)
Fixpoint json_members (o : JsObject) : list string :=
  match o with
  | [] => []
  | (k, Some v) :: r => (json_quote k +:+ ":" +:+ json_quote v) :: json_members r
  | (_, None) :: r => json_members r
  end.

Fixpoint join (sep : string) (l : list string) : string :=
  match l with
  | [] => ""
  | [x] => x
  | x :: r => x +:+ sep +:+ join sep r
  end.

Definition JSON_stringify (o : JsObject) : string :=
  "{" +:+ join "," (json_members o) +:+ "}".

(** *** Values produced by [JSON.parse] (the type [any] of an error body) *)

#[warnings="-register-all"] Inductive any : Type :=
| JNull
| JBool (b : bool)
| JNum (n : Z)
| JStr (s : string)
| JArr (items : list any)
| JObj (props : list (string * any)).

(** Own property of a parsed object. *)
Fixpoint own {A} (k : string) (props : list (string * A)) : option A :=
  match props with
  | [] => None
  | (k', v) :: r => if String.eqb k k' then Some v else own k r
  end.

(** [v.k] for one of the names the client reads ([error]), none of which
    is defined on a built-in prototype: [None] when reading the property
    throws a TypeError ([v] is [null]), [Some None] when it is
    [undefined]. *)
Definition get (v : any) (k : string) : option (option any) :=
  match v with
  | JNull => None
  | JObj props => Some (own k props)
  | _ => Some None
  end.

(** ToBoolean. *)
Definition truthy (v : any) : bool :=
  match v with
  | JNull => false
  | JBool b => b
  | JNum n => negb (n =? 0)%Z
  | JStr s => negb (String.eqb s "")
  | JArr _ | JObj _ => true
  end.

(** ToString, as the [Error] constructor applies it to its message.
    [None] is a TypeError: a parsed object that has an own [toString]
    property (never callable) cannot be converted to a primitive.  An
    array is joined with commas, [null] elements as empty strings. *)
Fixpoint ToString (v : any) : option string :=
  match v with
  | JNull => Some "null"
  | JBool true => Some "true"
  | JBool false => Some "false"
  | JNum n => Some (Number_toString n)
  | JStr s => Some s
  | JArr items =>
      (fix go (l : list any) : option string :=
         match l with
         | [] => Some ""
         | e :: r =>
             match (match e with JNull => Some "" | _ => ToString e end), go r with
             | Some a, Some b =>
                 Some (match r with [] => a | _ => a +:+ "," +:+ b end)
             | _, _ => None
             end
         end) items
  | JObj props =>
      match own "toString" props with
      | Some _ => None
      | None => Some "[object Object]"
      end
  end.

(** The description [String(e)] of that TypeError. *)
Definition TypeError_primitive : string :=
  "TypeError: Cannot convert object to primitive value".

(** The JSON text of a value: what the service sends for it. *)
Fixpoint JSON_text (v : any) : string :=
  match v with
  | JNull => "null"
  | JBool true => "true"
  | JBool false => "false"
  | JNum n => Number_toString n
  | JStr s => json_quote s
  | JArr items => "[" +:+ join "," (map JSON_text items) +:+ "]"
  | JObj props =>
      "{" +:+ join "," (map (fun kv : string * any =>
                               json_quote kv.1 +:+ ":" +:+ JSON_text kv.2) props) +:+ "}"
  end.

(** *** [Date]

    A [Date] holds a time value: milliseconds since 1970-01-01T00:00:00Z,
    or [None] for an invalid date (NaN). *)

Record Date : Type := MkDate { getTime : option Z }.

Definition is_leap (y : Z) : bool :=
  ((y mod 4 =? 0) && negb (y mod 100 =? 0) || (y mod 400 =? 0))%Z.

Definition days_in_month (y m : Z) : Z :=
  (if m =? 2 then (if is_leap y then 29 else 28)
   else if (m =? 4) || (m =? 6) || (m =? 9) || (m =? 11) then 30
   else 31)%Z.

(** The calendar counts in eras of 400 years (146097 days) that begin on
    1 March; [yoe] is the year of the era, [doe] the day of the era and [mp]
    the month counted from March. *)
Definition doe_of_civil (yoe m d : Z) : Z :=
  (let mp := if m <=? 2 then m + 9 else m - 3 in
   let doy := (153 * mp + 2) / 5 + d - 1 in
   yoe * 365 + yoe / 4 - yoe / 100 + doy)%Z.

Definition civil_of_doe (doe : Z) : Z * Z * Z :=
  (let yoe := (doe - doe / 1460 + doe / 36524 - doe / 146096) / 365 in
   let doy := doe - (365 * yoe + yoe / 4 - yoe / 100) in
   let mp := (5 * doy + 2) / 153 in
   let d := doy - (153 * mp + 2) / 5 + 1 in
   let m := if mp <? 10 then mp + 3 else mp - 9 in
   (yoe, m, d))%Z.

(** Day number of the civil date [y-m-d], day 0 being 1970-01-01
    (proleptic Gregorian calendar). *)
Definition days_from_civil (y m d : Z) : Z :=
  (let y' := if m <=? 2 then y - 1 else y in
   let era := y' / 400 in
   let yoe := y' - era * 400 in
   era * 146097 + doe_of_civil yoe m d - 719468)%Z.

(** The civil date of a day number. *)
Definition civil_from_days (z : Z) : Z * Z * Z :=
  (let z' := z + 719468 in
   let era := z' / 146097 in
   let doe := z' - era * 146097 in
   let '(yoe, m, d) := civil_of_doe doe in
   (yoe + era * 400 + (if m <=? 2 then 1 else 0), m, d))%Z.

Definition msPerDay : Z := 86400000.

(** Reads exactly [n] decimal digits. *)
Fixpoint read_digits (n : nat) (acc : Z) (s : string) : option (Z * string) :=
  match n with
  | O => Some (acc, s)
  | S n' =>
      match s with
      | String c r =>
          if is_digit c then read_digits n' (10 * acc + Z.of_N (code c - 48)) r
          else None
      | EmptyString => None
      end
  end.

Definition read_char (c : ascii) (s : string) : option string :=
  match s with
  | String d r => if Ascii.eqb c d then Some r else None
  | EmptyString => None
  end.

(** The ECMAScript date-time string format.  A string of the format that
    fixes its instant without the host's time zone is read here: a complete
    date [YYYY-MM-DD], alone (the start of that day, UTC) or followed by [T],
    a time [HH:mm], [HH:mm:ss] or [HH:mm:ss.sss] and a UTC offset [Z],
    [+HH:mm] or [-HH:mm], every field in range. *)

Definition valid_date (y m d : Z) : bool :=
  ((1 <=? m) && (m <=? 12) && (1 <=? d) && (d <=? days_in_month y m))%Z.

Definition valid_time (h mi sec : Z) : bool :=
  ((h <=? 23) && (mi <=? 59) && (sec <=? 59))%Z.

(** The seconds and milliseconds that may follow [HH:mm], and the rest. *)
Definition parse_seconds (s : string) : option (Z * Z * string) :=
  match s with
  | String ":" s1 =>
      '(sec, s2) ← read_digits 2 0 s1;
      match s2 with
      | String "." s3 => '(ms, s4) ← read_digits 3 0 s3; Some (sec, ms, s4)
      | _ => Some (sec, 0%Z, s2)
      end
  | _ => Some (0%Z, 0%Z, s)
  end.

(** A time of day: its milliseconds since midnight, and the rest. *)
Definition parse_time (s : string) : option (Z * string) :=
  '(h, s) ← read_digits 2 0 s; s ← read_char ":" s;
  '(mi, s) ← read_digits 2 0 s;
  '(sec, ms, s) ← parse_seconds s;
  if valid_time h mi sec
  then Some (h * 3600000 + mi * 60000 + sec * 1000 + ms, s)%Z
  else None.

(** [HH:mm] and nothing after it, as minutes. *)
Definition parse_hours_minutes (s : string) : option Z :=
  '(h, s) ← read_digits 2 0 s; s ← read_char ":" s;
  '(m, s) ← read_digits 2 0 s;
  if String.eqb s "" && (h <=? 23)%Z && (m <=? 59)%Z
  then Some (h * 60 + m)%Z
  else None.

(** A UTC offset that ends the string: the milliseconds by which the local
    time it qualifies is ahead of UTC. *)
Definition parse_offset (s : string) : option Z :=
  match s with
  | String "Z" EmptyString => Some 0%Z
  | String "+" r => m ← parse_hours_minutes r; Some (m * 60000)%Z
  | String "-" r => m ← parse_hours_minutes r; Some (- (m * 60000))%Z
  | _ => None
  end.

(** What may follow the date of the day [day]: nothing, or [T], a time
    and an offset. *)
Definition parse_day_time (day : Z) (s : string) : option Z :=
  match s with
  | EmptyString => Some (day * msPerDay)%Z
  | String "T" s1 =>
      '(ms, s2) ← parse_time s1;
      off ← parse_offset s2;
      Some (day * msPerDay + ms - off)%Z
  | _ => None
  end.

Definition parse_iso (s : string) : option Z :=
  '(y, s) ← read_digits 4 0 s; s ← read_char "-" s;
  '(m, s) ← read_digits 2 0 s; s ← read_char "-" s;
  '(d, s) ← read_digits 2 0 s;
  if valid_date y m d then parse_day_time (days_from_civil y m d) s else None.

(** Writes the [n] low decimal digits of [v] in front of [rest]. *)
Fixpoint write_digits (n : nat) (v : Z) (rest : string) : string :=
  match n with
  | O => rest
  | S n' =>
      write_digits n' (v / 10) (String (ascii_of_N (48 + Z.to_N (v mod 10))) rest)
  end.

(** [Date.prototype.toISOString] for a time value in the years 0000 to 9999:
    the complete UTC form. *)
Definition toISOString (t : Z) : string :=
  let day := (t / msPerDay)%Z in
  let ms := (t mod msPerDay)%Z in
  let '(y, m, d) := civil_from_days day in
  let time :=
    write_digits 2 (ms / 3600000)%Z (String ":"
      (write_digits 2 (ms / 60000 mod 60)%Z (String ":"
        (write_digits 2 (ms / 1000 mod 60)%Z (String "."
          (write_digits 3 (ms mod 1000)%Z "Z")))))) in
  write_digits 4 y (String "-"
    (write_digits 2 m (String "-"
      (write_digits 2 d (String "T" time))))).

(** The first and the last time value of the years 0000 to 9999. *)
Definition first_ms : Z := -62167219200000.
Definition last_ms : Z := 253402300799999.

(** The strings of the format, written for an instant.  A time is written
    to the minute, to the second or to the millisecond; an offset is [Z],
    [+HH:mm] ([East]) or [-HH:mm] ([West]). *)

Inductive TimeForm : Type := Minutes | Seconds | Millis.

Inductive Offset : Type :=
| UTC
| East (h m : Z)
| West (h m : Z).

Definition offset_ms (o : Offset) : Z :=
  match o with
  | UTC => 0
  | East h m => (h * 60 + m) * 60000
  | West h m => - ((h * 60 + m) * 60000)
  end%Z.

Definition valid_offset (o : Offset) : bool :=
  match o with
  | UTC => true
  | East h m | West h m => (0 <=? h) && (h <=? 23) && (0 <=? m) && (m <=? 59)
  end%Z.

(** The unit of a form of time, in ms: a form writes the instants that are a
    multiple of its unit. *)
Definition unit_ms (f : TimeForm) : Z :=
  match f with Minutes => 60000 | Seconds => 1000 | Millis => 1 end%Z.

Definition write_offset (o : Offset) : string :=
  match o with
  | UTC => "Z"
  | East h m => String "+" (write_digits 2 h (String ":" (write_digits 2 m "")))
  | West h m => String "-" (write_digits 2 h (String ":" (write_digits 2 m "")))
  end.

Definition write_time (f : TimeForm) (ms : Z) (rest : string) : string :=
  write_digits 2 (ms / 3600000)%Z (String ":"
    (write_digits 2 (ms / 60000 mod 60)%Z
      (match f with
       | Minutes => rest
       | Seconds => String ":" (write_digits 2 (ms / 1000 mod 60)%Z rest)
       | Millis =>
           String ":" (write_digits 2 (ms / 1000 mod 60)%Z
             (String "." (write_digits 3 (ms mod 1000)%Z rest)))
       end))).

(** The date [YYYY-MM-DD] of the day [day], in front of [rest]. *)
Definition write_date (day : Z) (rest : string) : string :=
  let '(y, m, d) := civil_from_days day in
  write_digits 4 y (String "-" (write_digits 2 m (String "-" (write_digits 2 d rest)))).

(** The instant [t] as a date and time at the offset [o]. *)
Definition iso_string (f : TimeForm) (o : Offset) (t : Z) : string :=
  let local := (t + offset_ms o)%Z in
  write_date (local / msPerDay)
    (String "T" (write_time f (local mod msPerDay) (write_offset o))).

(** The instant [t], the start of a day, as a date alone. *)
Definition iso_date (t : Z) : string := write_date (t / msPerDay) "".

(** [p] holds of the [n] integers from [z] on. *)
Fixpoint all_from (n : nat) (z : Z) (p : Z -> bool) : bool :=
  match n with
  | O => true
  | S k => p z && all_from k (z + 1) p
  end.

(** What the calendar conversion must satisfy on a day [doe] of an era: the
    date is a date of the calendar, it converts back to [doe], and the civil
    year changes between day 146036 (31 December) and day 146037. *)
Definition check_doe (doe : Z) : bool :=
  (let '(yoe, m, d) := civil_of_doe doe in
   let y := yoe + (if m <=? 2 then 1 else 0) in
   (0 <=? yoe) && (yoe <=? 399)
   && (1 <=? m) && (m <=? 12) && (1 <=? d) && (d <=? days_in_month y m)
   && (doe_of_civil yoe m d =? doe)
   && (if doe <=? 146036 then y <=? 399 else y =? 400))%Z.

(** What the calendar conversion must satisfy on the day [d] of the month
    [m] of the year [yoe] of an era, when that is a date of the calendar: its
    day of the era is in range and converts back to the date. *)
Definition check_civil (yoe m d : Z) : bool :=
  (let y := yoe + (if m <=? 2 then 1 else 0) in
   if d <=? days_in_month y m then
     let doe := doe_of_civil yoe m d in
     let '(yoe', m', d') := civil_of_doe doe in
     (0 <=? doe) && (doe <? 146097) && (yoe' =? yoe) && (m' =? m) && (d' =? d)
   else true)%Z.

(** [check_civil] on the days 1 to 31 of a month, and on the months 1 to 12
    of a year. *)
Definition check_month (yoe m : Z) : bool := all_from 31 1 (check_civil yoe m).
Definition check_year (yoe : Z) : bool := all_from 12 1 (check_month yoe).

(** TimeClip: a time value beyond 8.64e15 ms either way is invalid. *)
Definition TimeClip (t : Z) : option Z :=
  if (Z.abs t <=? 8640000000000000)%Z then Some t else None.

(** [Date.parse].  Strings that [parse_iso] covers are read by it; the
    reading of any other string (a time without an offset, which is a local
    time; the shorter and the expanded dates; formats an engine accepts of
    its own) is the platform's: [other]. *)
Definition Date_parse (other : string -> option Z) (s : string) : option Z :=
  match parse_iso s with
  | Some t => Some t
  | None => other s ≫= TimeClip
  end.

(** The argument of [new Date(value)]. *)
Inductive DateValue : Type :=
| OfString (s : string)
| OfNumber (n : Z)
| OfDate (d : Date).

Definition new_Date (other : string -> option Z) (value : DateValue) : Date :=
  match value with
  | OfString s => MkDate (Date_parse other s)
  | OfNumber n => MkDate (TimeClip n)
  | OfDate d => MkDate (getTime d)
  end.

(** *** [setTimeout]

    A timer holds its delay as a signed 32-bit integer.  A delay from 0 to
    2147483647 ms is waited for in full.  A delay outside that range is not:
    Node replaces it by 1 ms and a browser wraps it around, so the timer
    fires almost at once.  [timer_delay ms] is the time a timer of delay [ms]
    waits at least; what the platform adds to it is the lag of the timer. *)

Definition TIMEOUT_MAX : Z := 2147483647.

Definition timer_delay (ms : Z) : Z :=
  if ((0 <=? ms) && (ms <=? TIMEOUT_MAX))%Z then ms else 0%Z.

End Js.

(** ** Data-transfer types

    Each interface of the source is a record in a module of its name.  The
    received timestamp is a [string] on the wire and a [Js.Date] in what the
    client returns: the entity records take its type as a parameter. *)

Module AttachmentMeta.
Record t : Type := Make { id : string; name : string; type : string; size : Z }.
End AttachmentMeta.

Module EmailSummary.
Record t (D : Type) : Type := Make {
  id : string;
  from : string;
  subject : string;
  textPreview : string;
  receivedAt : D;
  hasAttachments : bool
}.
Arguments Make {D}.
Arguments id {D}.
Arguments from {D}.
Arguments subject {D}.
Arguments textPreview {D}.
Arguments receivedAt {D}.
Arguments hasAttachments {D}.

(** [{ ...e, receivedAt: r }] *)
Definition with_receivedAt {D D'} (e : t D) (r : D') : t D' :=
  Make (id e) (from e) (subject e) (textPreview e) r (hasAttachments e).
End EmailSummary.

Module EmailDetail.
Record t (D : Type) : Type := Make {
  id : string;
  from : string;
  to : list string;
  subject : string;
  html : string;
  text : string;
  receivedAt : D;
  hasAttachments : bool;
  attachments : list AttachmentMeta.t
}.
Arguments Make {D}.
Arguments id {D}.
Arguments from {D}.
Arguments to {D}.
Arguments subject {D}.
Arguments html {D}.
Arguments text {D}.
Arguments receivedAt {D}.
Arguments hasAttachments {D}.
Arguments attachments {D}.

(** [{ ...resp, receivedAt: r }] *)
Definition with_receivedAt {D D'} (e : t D) (r : D') : t D' :=
  Make (id e) (from e) (to e) (subject e) (html e) (text e) r
       (hasAttachments e) (attachments e).
End EmailDetail.

Module PaginatedEmailList.
Record t (D : Type) : Type := Make {
  data : list (EmailSummary.t D);
  nextCursor : option string;
  total : Z
}.
Arguments Make {D}.
Arguments data {D}.
Arguments nextCursor {D}.
Arguments total {D}.
End PaginatedEmailList.

(** [GenerateEmailOptions]: an object with optional [domain] and [prefix].
    Which keys are present matters to [generateEmail], so the object is kept
    as its own properties; [domain?: string] admits a present key whose value
    is [undefined]. *)
Definition GenerateEmailOptions : Type := Js.JsObject.

Record ListEmailsOptions : Type := { limit : option Z; cursor : option string }.

Record VanishClientOptions : Type := { opt_apiKey : option string; opt_timeout : option Z }.

(** The success bodies of the endpoints, as the type arguments of [request]
    declare them. *)
Record DomainsBody : Type := { domains : list string }.
Record MailboxBody : Type := { email : string }.
Record SuccessBody : Type := { success : bool }.
Record DeletedBody : Type := { deleted : Z }.

(** ** Errors *)

Record VanishError : Type := { message : string; statusCode : option Z }.

(** What the platform throws: the [DOMException] named [AbortError] of a
    cancelled request, or any other value, known by its description
    [String(error)]. *)
Inductive Failure : Type :=
| AbortError
| OtherError (descr : string).

Inductive Thrown : Type :=
| Vanish (e : VanishError)
| Platform (f : Failure).

(** ** The platform: responses, the network script, the clock *)

Inductive Settled (A : Type) : Type :=
| Resolved (a : A)
| Rejected (f : Failure).
Arguments Resolved {A}.
Arguments Rejected {A}.

(** The [Headers] of a response, passed through untouched. *)
Definition Headers : Type := list (string * string).

(** A [Response].  It has one body and three ways to read it:
    [json] is [response.json()] read at the type [T] that the caller of
    [request<T>] declares, which is how the success path uses it;
    [jsonAny] is [response.json()] read as [any], which is how the error path
    uses it; [arrayBuffer] is the raw bytes.  A reading is [Rejected] when the
    body is absent or is not JSON, or when the transfer fails or is cancelled
    while the body is read. *)
Record Response (T : Type) : Type := {
  status : Z;
  statusText : string;
  headers : Headers;
  json : Settled T;
  jsonAny : Settled Js.any;
  arrayBuffer : Settled (list Byte.byte)
}.
Arguments status {T}.
Arguments statusText {T}.
Arguments headers {T}.
Arguments json {T}.
Arguments jsonAny {T}.
Arguments arrayBuffer {T}.

(** [response.ok]: the status is in the range 200-299. *)
Definition ok {T} (r : Response T) : bool :=
  ((200 <=? status r) && (status r <=? 299))%Z.

(** The arguments of a [fetch] call.  [signal] is the delay of the timer
    that aborts the call's [AbortController]. *)
Record FetchCall : Type := {
  url : string;
  method : string;
  req_headers : gmap string string;
  body : option string;
  signal : Z
}.

(** What the network does with one [fetch] call: the time it takes and how
    the promise settles. *)
Record Exchange (T : Type) : Type := {
  elapsed : N;
  settles : Settled (Response T)
}.
Arguments elapsed {T}.
Arguments settles {T}.

(** The environment of a run: the [k]-th [fetch] call is answered by
    [net k], the [k]-th timer of a sleep fires [lag k] ms after the delay it
    honours, and [parse_other] is the
    platform's reading of date strings (see [Js.Date_parse]). *)
Record Env (T : Type) : Type := {
  net : nat -> Exchange T;
  lag : nat -> N;
  parse_other : string -> option Z
}.
Arguments net {T}.
Arguments lag {T}.
Arguments parse_other {T}.

Record State : Type := {
  now : Z;                  (* the clock, in ms: [Date.now()] *)
  sent : list FetchCall;    (* the [fetch] calls made, oldest first *)
  timers : list Z           (* the delays slept, oldest first *)
}.

(** ** The monad of the client's asynchronous code

    A computation reads the environment, threads the state and either
    returns, throws, or does not finish within the fuel it was given. *)

Inductive Outcome (A : Type) : Type :=
| Ret (a : A)
| Throw (e : Thrown)
| Spin.
Arguments Ret {A}.
Arguments Throw {A}.
Arguments Spin {A}.

Definition M (T A : Type) : Type := Env T -> State -> Outcome A * State.

Definition ret {T A} (a : A) : M T A := fun _ s => (Ret a, s).

Definition throw {T A} (e : Thrown) : M T A := fun _ s => (Throw e, s).

Definition bind {T A B} (m : M T A) (k : A -> M T B) : M T B :=
  fun env s =>
    match m env s with
    | (Ret a, s') => k a env s'
    | (Throw e, s') => (Throw e, s')
    | (Spin, s') => (Spin, s')
    end.

(** [try { m } catch (error) { h error }] *)
Definition try_catch {T A} (m : M T A) (h : Thrown -> M T A) : M T A :=
  fun env s =>
    match m env s with
    | (Throw e, s') => h e env s'
    | r => r
    end.

(** [await p] for a promise of the platform that has settled. *)
Definition await {T A} (p : Settled A) : M T A :=
  match p with
  | Resolved a => ret a
  | Rejected f => throw (Platform f)
  end.

Declare Scope vanish_scope.
Delimit Scope vanish_scope with vanish.
Notation "'let!' x ':=' m 'in' k" := (bind m (fun x => k))
  (at level 10, x name, m at level 100, k at level 200)
  : vanish_scope.
Notation "m ';;;' k" := (bind m (fun _ => k))
  (at level 100, k at level 200, right associativity) : vanish_scope.
Open Scope vanish_scope.

(** [fetch(url, init)]: the call is recorded, the clock advances by the time
    the exchange takes, and the promise settles as the network says. *)
Definition fetch {T} (call : FetchCall) : M T (Response T) :=
  fun env s =>
    let x := net env (length (sent s)) in
    let s' := {| now := now s + Z.of_N (elapsed x);
                 sent := sent s ++ [call];
                 timers := timers s |} in
    match settles x with
    | Resolved r => (Ret r, s')
    | Rejected f => (Throw (Platform f), s')
    end.

(** [Date.now()] *)
Definition Date_now {T} : M T Z := fun _ s => (Ret (now s), s).

(** [await new Promise((resolve) => setTimeout(resolve, ms))]: the clock
    advances by the delay the timer honours (see [Js.timer_delay]) and by
    the timer's lag. *)
Definition sleep {T} (ms : Z) : M T unit :=
  fun env s =>
    (Ret tt,
     {| now := now s + Js.timer_delay ms + Z.of_N (lag env (length (timers s)));
        sent := sent s;
        timers := timers s ++ [ms] |}).

(** The [Date] constructor applied to a string: [new Date(s)]. *)
Definition Date_of_string {T} : M T (string -> Js.Date) :=
  fun env s => (Ret (fun str => Js.new_Date (parse_other env) (Js.OfString str)), s).

(** ** [VanishClient] *)

Record VanishClient : Type := {
  baseUrl : string;
  apiKey : option string;
  timeout : Z
}.

(** [s.replace(/\/$/, "")]: one trailing slash is removed. *)
Fixpoint strip_trailing_slash (s : string) : string :=
  match s with
  | EmptyString => EmptyString
  | String c r =>
      if Ascii.eqb c "/" && String.eqb r "" then EmptyString
      else String c (strip_trailing_slash r)
  end.

(** The constructor. *)
Definition new_VanishClient (baseUrl : string) (options : VanishClientOptions)
  : VanishClient :=
  {| baseUrl := strip_trailing_slash baseUrl;
     apiKey := opt_apiKey options;
     timeout := default 30000%Z (opt_timeout options) |}.

(** A query parameter: [string | number | undefined]. *)
Inductive ParamValue : Type :=
| PString (s : string)
| PNumber (n : Z).

Abbreviation Params := (list (string * option ParamValue)).

(** [String(v)] *)
Definition String_ (v : option ParamValue) : string :=
  match v with
  | Some (PString s) => s
  | Some (PNumber n) => Js.Number_toString n
  | None => "undefined"
  end.

Record RequestOptions : Type := {
  params : option Params;
  req_body : option Js.JsObject;
  rawResponse : bool
}.

(** [{}] *)
Definition no_options : RequestOptions :=
  {| params := None; req_body := None; rawResponse := false |}.

(** The result of the raw overload of [request]. *)
Record RawResponse : Type := { raw_data : list Byte.byte; raw_headers : Headers }.

(** The result type of [request], by overload. *)
Definition Reply (T : Type) (raw : bool) : Type := if raw then RawResponse else T.

(** The URL that [request] builds. *)
Definition request_url (c : VanishClient) (path : string) (ps : option Params) : string :=
  let url := baseUrl c +:+ path in
  match ps with
  | Some ps =>
      let filtered := filter (fun kv : string * option ParamValue => kv.2 <> None) ps in
      if (0 <? length filtered)%nat then
        let qs := Js.URLSearchParams_toString
                    (map (fun kv : string * option ParamValue => (kv.1, String_ kv.2)) filtered) in
        url +:+ "?" +:+ qs
      else url
  | None => url
  end.

(** The headers that [request] builds.  [if (this.apiKey)] holds for a
    string that is not empty. *)
Definition request_headers (c : VanishClient) : gmap string string :=
  let headers : gmap string string := {[ "Content-Type" := "application/json" ]} in
  match apiKey c with
  | Some k => if String.eqb k "" then headers
              else <[ "Authorization" := "Bearer " +:+ k ]> headers
  | None => headers
  end.

(** [throw new VanishError(message, statusCode)] where [message] is a value
    of type [any]: the [Error] constructor converts it to a string, and that
    conversion throws a TypeError when it is impossible. *)
Definition throw_VanishError {T A} (message : Js.any) (statusCode : option Z) : M T A :=
  match Js.ToString message with
  | Some m => throw (Vanish {| message := m; statusCode := statusCode |})
  | None => throw (Platform (OtherError Js.TypeError_primitive))
  end.

(** The message of the error for a response that is not [ok]:
    [errorBody.error || response.statusText], and [response.statusText] when
    reading the body or the property throws. *)
Definition error_message {T} (response : Response T) : Js.any :=
  match jsonAny response with
  | Resolved errorBody =>
      match Js.get errorBody "error" with
      | Some (Some e) => if Js.truthy e then e else Js.JStr (statusText response)
      | Some None => Js.JStr (statusText response)
      | None => Js.JStr (statusText response)
      end
  | Rejected _ => Js.JStr (statusText response)
  end.

(** The body of the [try] block of [request], after [fetch] has resolved. *)
Definition read_response {T} (raw : bool) (response : Response T) : M T (Reply T raw) :=
  if negb (ok response) then
    throw_VanishError (error_message response) (Some (status response))
  else
    match raw return M T (Reply T raw) with
    | true =>
        let! data := await (arrayBuffer response) in
        ret {| raw_data := data; raw_headers := headers response |}
    | false => await (json response)
    end.

(** The [catch] block of [request]. *)
Definition request_catch {T A} (error : Thrown) : M T A :=
  match error with
  | Vanish e => throw (Vanish e)
  | Platform AbortError =>
      throw (Vanish {| message := "Request timeout"; statusCode := None |})
  | Platform (OtherError descr) =>
      throw (Vanish {| message := "Request failed: " +:+ descr; statusCode := None |})
  end.

(** The [init] argument of the [fetch] call of [request]. *)
Definition fetch_init (c : VanishClient) (method path : string) (options : RequestOptions)
  : FetchCall :=
  {| url := request_url c path (params options);
     method := method;
     req_headers := request_headers c;
     body := match req_body options with
             | Some b => Some (Js.JSON_stringify b)
             | None => None
             end;
     signal := timeout c |}.

(** [request].  The [finally] block clears the abort timer, which leaves no
    trace in the state. *)
Definition request {T} (c : VanishClient) (method path : string) (options : RequestOptions)
  : M T (Reply T (rawResponse options)) :=
  try_catch
    (let! response := fetch (fetch_init c method path options) in
     read_response (rawResponse options) response)
    request_catch.

(** [getDomains] *)
Definition getDomains (c : VanishClient) : M DomainsBody (list string) :=
  let! resp := request c "GET" "/domains" no_options in
  ret (domains resp).

(** [generateEmail] *)
Definition generateEmail (c : VanishClient) (options : GenerateEmailOptions)
  : M MailboxBody string :=
  let! resp :=
    request c "POST" "/mailbox"
      {| params := None;
         req_body := if (0 <? length (Js.Object_keys options))%nat
                     then Some options else None;
         rawResponse := false |} in
  ret (email resp).

(** [listEmails] *)
Definition listEmails (c : VanishClient) (address : string) (options : ListEmailsOptions)
  : M (PaginatedEmailList.t string) (PaginatedEmailList.t Js.Date) :=
  let! resp :=
    request c "GET" ("/mailbox/" +:+ Js.encodeURIComponent address)
      {| params := Some [("limit", PNumber <$> limit options);
                         ("cursor", PString <$> cursor options)];
         req_body := None;
         rawResponse := false |} in
  let! new_Date := Date_of_string in
  ret (PaginatedEmailList.Make
         (map (fun e => EmailSummary.with_receivedAt e (new_Date (EmailSummary.receivedAt e)))
              (PaginatedEmailList.data resp))
         (PaginatedEmailList.nextCursor resp)
         (PaginatedEmailList.total resp)).

(** [getEmail] *)
Definition getEmail (c : VanishClient) (emailId : string)
  : M (EmailDetail.t string) (EmailDetail.t Js.Date) :=
  let! resp := request c "GET" ("/email/" +:+ emailId) no_options in
  let! new_Date := Date_of_string in
  ret (EmailDetail.with_receivedAt resp (new_Date (EmailDetail.receivedAt resp))).

(** [getAttachment] *)
Definition getAttachment {T} (c : VanishClient) (emailId attachmentId : string)
  : M T RawResponse :=
  request c "GET" ("/email/" +:+ emailId +:+ "/attachments/" +:+ attachmentId)
    {| params := None; req_body := None; rawResponse := true |}.

(** [deleteEmail] *)
Definition deleteEmail (c : VanishClient) (emailId : string) : M SuccessBody bool :=
  let! resp := request c "DELETE" ("/email/" +:+ emailId) no_options in
  ret (success resp).

(** [deleteMailbox] *)
Definition deleteMailbox (c : VanishClient) (address : string) : M DeletedBody Z :=
  let! resp :=
    request c "DELETE" ("/mailbox/" +:+ Js.encodeURIComponent address) no_options in
  ret (deleted resp).

(** [{ limit: 1 }] *)
Definition poll_options : ListEmailsOptions := {| limit := Some 1%Z; cursor := None |}.

(** The [while] loop of [pollForEmails]; [fuel] bounds its iterations. *)
Fixpoint poll_loop (fuel : nat) (c : VanishClient) (address : string)
    (interval initialCount deadline : Z)
  : M (PaginatedEmailList.t string) (option (EmailSummary.t Js.Date)) :=
  match fuel with
  | O => fun _ s => (Spin, s)
  | S fuel' =>
      let! t := Date_now in
      if (t <? deadline)%Z then
        let! result := listEmails c address poll_options in
        if (initialCount <? PaginatedEmailList.total result)%Z
           && (0 <? length (PaginatedEmailList.data result))%nat
        then ret (head (PaginatedEmailList.data result))
        else sleep interval ;;; poll_loop fuel' c address interval initialCount deadline
      else ret None
  end.

(** [pollForEmails]; the defaults of its parameters are [default_timeout],
    [default_interval] and [default_initialCount]. *)
Definition pollForEmails (fuel : nat) (c : VanishClient) (address : string)
    (timeout interval initialCount : Z)
  : M (PaginatedEmailList.t string) (option (EmailSummary.t Js.Date)) :=
  let! t0 := Date_now in
  let deadline := (t0 + timeout)%Z in
  poll_loop fuel c address interval initialCount deadline.

Definition default_timeout : Z := 60000.
Definition default_interval : Z := 5000.
Definition default_initialCount : Z := 0.

(** [createClient] *)
Definition createClient (baseUrl : string) (options : option VanishClientOptions)
  : VanishClient :=
  new_VanishClient baseUrl
    (default {| opt_apiKey := None; opt_timeout := None |} options).

(** The public operations of the client, indexed by the type of the success
    body they read and the type of their result. *)
Inductive Operation : Type -> Type -> Type :=
| GetDomains : Operation DomainsBody (list string)
| GenerateEmail (options : GenerateEmailOptions) : Operation MailboxBody string
| ListEmails (address : string) (options : ListEmailsOptions)
  : Operation (PaginatedEmailList.t string) (PaginatedEmailList.t Js.Date)
| GetEmail (emailId : string) : Operation (EmailDetail.t string) (EmailDetail.t Js.Date)
| GetAttachment (T : Type) (emailId attachmentId : string) : Operation T RawResponse
| DeleteEmail (emailId : string) : Operation SuccessBody bool
| DeleteMailbox (address : string) : Operation DeletedBody Z
| PollForEmails (fuel : nat) (address : string) (timeout interval initialCount : Z)
  : Operation (PaginatedEmailList.t string) (option (EmailSummary.t Js.Date)).

Definition run {T A} (c : VanishClient) (op : Operation T A) : M T A :=
  match op with
  | GetDomains => getDomains c
  | GenerateEmail options => generateEmail c options
  | ListEmails address options => listEmails c address options
  | GetEmail emailId => getEmail c emailId
  | GetAttachment _ emailId attachmentId => getAttachment c emailId attachmentId
  | DeleteEmail emailId => deleteEmail c emailId
  | DeleteMailbox address => deleteMailbox c address
  | PollForEmails fuel address timeout interval initialCount =>
      pollForEmails fuel c address timeout interval initialCount
  end.

(** ** States and notions the properties are stated with *)

(** The state after a [fetch] call. *)
Definition fetched {T} (env : Env T) (s : State) (call : FetchCall) : State :=
  {| now := now s + Z.of_N (elapsed (net env (length (sent s))));
     sent := sent s ++ [call];
     timers := timers s |}.

(** The state after a sleep. *)
Definition slept {T} (env : Env T) (s : State) (ms : Z) : State :=
  {| now := now s + Js.timer_delay ms + Z.of_N (lag env (length (timers s)));
     sent := sent s;
     timers := timers s ++ [ms] |}.

(** The [fetch] call of [listEmails]. *)
Definition listEmails_call (c : VanishClient) (address : string) (options : ListEmailsOptions)
  : FetchCall :=
  fetch_init c "GET" ("/mailbox/" +:+ Js.encodeURIComponent address)
    {| params := Some [("limit", PNumber <$> limit options);
                       ("cursor", PString <$> cursor options)];
       req_body := None;
       rawResponse := false |}.

(** The result of [listEmails] for the page [resp] of the service. *)
Definition listed {T} (env : Env T) (resp : PaginatedEmailList.t string)
  : PaginatedEmailList.t Js.Date :=
  PaginatedEmailList.Make
    (map (fun e => EmailSummary.with_receivedAt e
                     (Js.new_Date (parse_other env) (Js.OfString (EmailSummary.receivedAt e))))
         (PaginatedEmailList.data resp))
    (PaginatedEmailList.nextCursor resp)
    (PaginatedEmailList.total resp).

(** The service answers the [k]-th call of the run with the success body
    [page]. *)
Definition answers {T} (env : Env T) (k : nat) (page : T) : Prop :=
  exists r, settles (net env k) = Resolved r /\ ok r = true /\ json r = Resolved page.

(** The state after [n] checks of a poll that each found nothing and slept:
    each check is one call and one sleep of [interval] ms. *)
Fixpoint after_checks {T} (env : Env T) (call : FetchCall) (interval : Z)
    (n : nat) (s : State) : State :=
  match n with
  | O => s
  | S n' => after_checks env call interval n' (slept env (fetched env s call) interval)
  end.

(** [ceil(a / b)] for [0 < b]. *)
Definition ceil_div (a b : Z) : Z := ((a + b - 1) / b)%Z.

(** Every character of [s] satisfies [p]. *)
Fixpoint all_chars (p : ascii -> bool) (s : string) : bool :=
  match s with
  | EmptyString => true
  | String c r => p c && all_chars p r
  end.

(** [ch] is not the delimiter [d]. *)
Definition plain (d : ascii) (ch : ascii) : bool := negb (Ascii.eqb ch d).

(** [options.k]: [undefined] when the key is missing and when its value is
    [undefined]. *)
Definition property (o : Js.JsObject) (k : string) : option string :=
  mjoin (Js.own k o).

(** The query parameters that have a value, as strings. *)
Definition defined_params (ps : Params) : list (string * string) :=
  omap (fun kv : string * option ParamValue =>
          match kv.2 with
          | Some v => Some (kv.1, String_ (Some v))
          | None => None
          end) ps.

(** An operation makes a request at once: always, except that polling needs
    fuel for its loop and a deadline that lies ahead. *)
Definition begins {T A} (op : Operation T A) : Prop :=
  match op with
  | PollForEmails fuel _ timeout _ _ => (0 < fuel)%nat /\ (0 < timeout)%Z
  | _ => True
  end.

(** The operation reads the raw bytes of the body. *)
Definition is_raw {T A} (op : Operation T A) : bool :=
  match op with
  | GetAttachment _ _ _ => true
  | _ => false
  end.

(** The errors of the request primitive. *)
Definition timeout_error : VanishError :=
  {| message := "Request timeout"; statusCode := None |}.

Definition http_error {T} (r : Response T) (message : string) : VanishError :=
  {| message := message; statusCode := Some (status r) |}.


(** ** Sample runs

    Concrete clients, environments and responses, on which the theorems
    below are instantiated and the code is evaluated. *)

Definition start : State := {| now := 1000; sent := []; timers := [] |}.

Definition client_with (key : option string) : VanishClient :=
  new_VanishClient "https://api.vanish.host/" {| opt_apiKey := key; opt_timeout := None |}.

(** An environment that answers the [k]-th call with the [k]-th exchange of
    [xs], and with [rest] once [xs] is used up; timers fire on time and the
    platform reads no date string beyond those of [Js.parse_iso]. *)
Definition script {T} (xs : list (Exchange T)) (rest : Exchange T) : Env T :=
  {| net := fun k => nth k xs rest;
     lag := fun _ => 0%N;
     parse_other := fun _ => None |}.

(** An exchange that takes 20 ms and resolves with a response. *)
Definition responds {T} (r : Response T) : Exchange T :=
  {| elapsed := 20; settles := Resolved r |}.

(** A response with a JSON body: [v] is the parsed value and [typed] its
    reading at the type [T]. *)
Definition json_response {T} (status : Z) (statusText : string)
    (typed : T) (v : Js.any) : Response T :=
  {| status := status;
     statusText := statusText;
     headers := [("content-type", "application/json")];
     json := Resolved typed;
     jsonAny := Resolved v;
     arrayBuffer := Resolved (String.list_byte_of_string (Js.JSON_text v)) |}.

(** A response whose body cannot be read: every reading fails with [f]. *)
Definition broken_response {T} (status : Z) (statusText : string) (f : Failure)
  : Response T :=
  {| status := status;
     statusText := statusText;
     headers := [];
     json := Rejected f;
     jsonAny := Rejected f;
     arrayBuffer := Rejected f |}.

(** 404 with the body [{"error":"bad id"}]. *)
Definition bad_id : Response Js.any :=
  let v := Js.JObj [("error", Js.JStr "bad id")] in
  json_response 404 "Not Found" v v.

(** 404 with the body [{}]. *)
Definition empty_object_404 : Response Js.any :=
  json_response 404 "Not Found" (Js.JObj []) (Js.JObj []).

(** 503 whose body is cut off by the abort of the request. *)
Definition aborted_503 : Response DomainsBody :=
  broken_response 503 "Service Unavailable" AbortError.

(** The JSON value of a summary and of a page, as the service sends them. *)
Definition summary_any (e : EmailSummary.t string) : Js.any :=
  Js.JObj [("id", Js.JStr (EmailSummary.id e));
           ("from", Js.JStr (EmailSummary.from e));
           ("subject", Js.JStr (EmailSummary.subject e));
           ("textPreview", Js.JStr (EmailSummary.textPreview e));
           ("receivedAt", Js.JStr (EmailSummary.receivedAt e));
           ("hasAttachments", Js.JBool (EmailSummary.hasAttachments e))].

Definition page_any (p : PaginatedEmailList.t string) : Js.any :=
  Js.JObj [("data", Js.JArr (map summary_any (PaginatedEmailList.data p)));
           ("nextCursor", match PaginatedEmailList.nextCursor p with
                          | Some cur => Js.JStr cur
                          | None => Js.JNull
                          end);
           ("total", Js.JNum (PaginatedEmailList.total p))].

(** 200 with a page of the mailbox. *)
Definition page_response (total : Z) (items : list (EmailSummary.t string))
  : Response (PaginatedEmailList.t string) :=
  let p := PaginatedEmailList.Make items None total in
  json_response 200 "OK" p (page_any p).

Definition hello : EmailSummary.t string :=
  EmailSummary.Make "m1" "alice@example.org" "Hello" "Hello, world"
    "2024-01-01T00:00:00.000Z" false.

(** The mailbox stays empty for two checks; the third finds [hello]. *)
Definition arrives_third : Env (PaginatedEmailList.t string) :=
  script [responds (page_response 0 []); responds (page_response 0 [])]
         (responds (page_response 1 [hello])).

(** The mailbox stays empty. *)
Definition never_arrives : Env (PaginatedEmailList.t string) :=
  script [] (responds (page_response 0 [])).

(** The mailbox is empty at the first check; the network fails at the
    second. *)
Definition fails_second : Env (PaginatedEmailList.t string) :=
  script [responds (page_response 0 [])]
         {| elapsed := 5; settles := Rejected (OtherError "TypeError: fetch failed") |}.

(** 200 with the body [{"domains":["vanish.host"]}]. *)
Definition domains_response : Response DomainsBody :=
  json_response 200 "OK" {| domains := ["vanish.host"] |}
    (Js.JObj [("domains", Js.JArr [Js.JStr "vanish.host"])]).

(** 200 with the body [{"email":"test@vanish.host"}]. *)
Definition mailbox_response : Response MailboxBody :=
  json_response 200 "OK" {| email := "test@vanish.host" |}
    (Js.JObj [("email", Js.JStr "test@vanish.host")]).


(** Clients without a key, with a key, and with the empty string as key. *)
Definition anonymous : VanishClient := client_with None.
Definition keyed : VanishClient := client_with (Some "secret").
Definition blank_key : VanishClient := client_with (Some "").

(** The download of an attachment; the success body is not read as JSON. *)
Definition attachment_op : Operation Js.any RawResponse := GetAttachment Js.any "e1" "a1".

Definition bad_id_env : Env Js.any := script [] (responds bad_id).
Definition empty_404_env : Env Js.any := script [] (responds empty_object_404).
Definition aborted_503_env : Env DomainsBody := script [] (responds aborted_503).
Definition domains_env : Env DomainsBody := script [] (responds domains_response).
Definition mailbox_env : Env MailboxBody := script [] (responds mailbox_response).

(** The service does not answer and the abort timer fires after 30 s. *)
Definition times_out : Env DomainsBody :=
  script [] {| elapsed := 30000; settles := Rejected AbortError |}.

(** [{ domain: "vanish.host", prefix: undefined }] *)
Definition only_domain : GenerateEmailOptions :=
  [("domain", Some "vanish.host"); ("prefix", None)].

(** [{ domain: undefined }] *)
Definition undefined_domain : GenerateEmailOptions := [("domain", None)].

(** [{ limit: 0, cursor: undefined, tag: "" }] *)
Definition sample_params : Params :=
  [("limit", Some (PNumber 0)); ("cursor", None); ("tag", Some (PString ""))].

Definition sample_options : RequestOptions :=
  {| params := Some sample_params; req_body := None; rawResponse := false |}.

(** ** Further notions *)

(** [s] ends with a slash. *)
Fixpoint ends_with_slash (s : string) : bool :=
  match s with
  | EmptyString => false
  | String c r => if String.eqb r "" then Ascii.eqb c "/" else ends_with_slash r
  end.

(** The operation is the poll, the one that may issue several requests. *)
Definition polls {T A} (op : Operation T A) : bool :=
  match op with
  | PollForEmails _ _ _ _ _ => true
  | _ => false
  end.

(** The operation is [generateEmail], the one that may send a body. *)
Definition generates {T A} (op : Operation T A) : bool :=
  match op with
  | GenerateEmail _ => true
  | _ => false
  end.

(** The HTTP method an operation is written with. *)
Definition verb {T A} (op : Operation T A) : string :=
  match op with
  | GenerateEmail _ => "POST"
  | DeleteEmail _ | DeleteMailbox _ => "DELETE"
  | _ => "GET"
  end.

(** Percent-decoding of a path segment, as the service applies it: [%XX]
    with two hexadecimal digits is the byte [XX], any other character is
    itself. *)
Fixpoint percent_decode (s : string) : string :=
  match s with
  | EmptyString => EmptyString
  | String "%" (String h (String l r) as r1) =>
      match Js.hex_value h, Js.hex_value l with
      | Some a, Some b => String (ascii_of_N (16 * a + b)) (percent_decode r)
      | _, _ => String "%" (percent_decode r1)
      end
  | String c r => String c (percent_decode r)
  end.


(** Options with a key and an explicit timeout of zero. *)
Definition zero_timeout : VanishClientOptions :=
  {| opt_apiKey := Some "secret"; opt_timeout := Some 0%Z |}.

(** 200 with the body [{"success":true}]. *)
Definition success_response : Response SuccessBody :=
  json_response 200 "OK" {| success := true |} (Js.JObj [("success", Js.JBool true)]).

Definition success_env : Env SuccessBody := script [] (responds success_response).



(** The mailbox reports one message but lists none at the first check, and
    holds [hello] at the second. *)
Definition counted_first : Env (PaginatedEmailList.t string) :=
  script [responds (page_response 1 [])] (responds (page_response 1 [hello])).

(** The service refuses every call with 429. *)
Definition too_many : Env (PaginatedEmailList.t string) :=
  script [] (responds (broken_response 429 "Too Many Requests"
                         (OtherError "SyntaxError: Unexpected end of JSON input"))).

(** The operation takes a mailbox address, which it encodes into the path
    before it issues its request. *)
Definition addressed {T A} (op : Operation T A) : bool :=
  match op with
  | ListEmails _ _ | DeleteMailbox _ | PollForEmails _ _ _ _ _ => true
  | _ => false
  end.



(** 404 with the body [{"error":{"toString":1}}]: the [error] property is
    truthy and has no string form. *)
Definition unconvertible_404 : Response Js.any :=
  let v := Js.JObj [("error", Js.JObj [("toString", Js.JNum 1)])] in
  json_response 404 "Not Found" v v.

Definition unconvertible_env : Env Js.any := script [] (responds unconvertible_404).

(** 200 with the body [{"deleted":2}]. *)
Definition deleted_response : Response DeletedBody :=
  json_response 200 "OK" {| deleted := 2 |} (Js.JObj [("deleted", Js.JNum 2)]).

Definition deleted_env : Env DeletedBody := script [] (responds deleted_response).

(** The characters that [encodeURIComponent] leaves as they are, and a text
    that holds characters of the other kind. *)
Definition unreserved_text : string :=
  "ABCDEFGHIJKLMNOPQRSTUVWXYZabcdefghijklmnopqrstuvwxyz0123456789-_.!~*'()".

Definition reserved_text : string :=
  "a b+c/d?e#f@g:h;i=j&k$l,m%n[o]p<q>r{s}t|u^v`w".

(** A summary whose timestamp has whole seconds and the offset [+01:00], and
    a mailbox that holds it. *)
Definition hello_east : EmailSummary.t string :=
  EmailSummary.Make "m2" "bob@example.org" "Hi" "Hi there"
    "2024-01-01T01:00:00+01:00" false.

Definition holds_hello_east : Env (PaginatedEmailList.t string) :=
  script [] (responds (page_response 1 [hello_east])).

(** A timestamp without an offset: a local time, which [Js.parse_iso] leaves
    to the platform. *)
Definition local_time : string := "2024-01-01T00:00:00".

(** A platform in the time zone UTC+1: it reads [local_time] as the instant
    one hour before midnight UTC. *)
Definition one_hour_east (s : string) : option Z :=
  if String.eqb s local_time then Some 1704063600000%Z else None.
Section Request.
Context {T : Type}.
Implicit Types (c : VanishClient) (env : Env T) (s : State) (options : RequestOptions).

Lemma throw_VanishError_state A (message : Js.any) code env s :
  (throw_VanishError (T:=T) (A:=A) message code env s).2 = s.
Proof. unfold throw_VanishError. by destruct (Js.ToString message). Qed.

Lemma await_state A (p : Settled A) env s : (await (T:=T) p env s).2 = s.
Proof. by destruct p. Qed.

Lemma read_response_state raw (r : Response T) env s :
  (read_response raw r env s).2 = s.
Proof.
  unfold read_response. destruct (negb (ok r)).
  - apply throw_VanishError_state.
  - destruct raw; [|apply await_state].
    unfold bind. pose proof (await_state _ (arrayBuffer r) env s) as H.
    destruct (await (arrayBuffer r) env s) as [[d|e|] s1]; simpl in *; by subst.
Qed.

Lemma request_catch_state A (e : Thrown) env s :
  (request_catch (T:=T) (A:=A) e env s).2 = s.
Proof. by destruct e as [e|[|d]]. Qed.

(** A rejected [fetch] goes to the [catch] block. *)
Lemma request_rejected c method path options env s f :
  settles (net env (length (sent s))) = Rejected f ->
  request c method path options env s
  = request_catch (Platform f) env (fetched env s (fetch_init c method path options)).
Proof.
  intros H. unfold request, try_catch, bind, fetch. rewrite H. done.
Qed.

(** A resolved [fetch] continues with the rest of the [try] block. *)
Lemma request_resolved c method path options env s r :
  settles (net env (length (sent s))) = Resolved r ->
  request c method path options env s
  = try_catch (read_response (rawResponse options) r) request_catch
      env (fetched env s (fetch_init c method path options)).
Proof.
  intros H. unfold request, try_catch, bind, fetch. rewrite H. done.
Qed.

(** [request] makes exactly one [fetch] call and does not sleep. *)
Lemma request_state c method path options env s :
  (request c method path options env s).2
  = fetched env s (fetch_init c method path options).
Proof.
  destruct (settles (net env (length (sent s)))) as [r|f] eqn:H.
  - rewrite (request_resolved _ _ _ _ _ _ _ H). unfold try_catch.
    pose proof (read_response_state (rawResponse options) r env
                  (fetched env s (fetch_init c method path options))) as Hs.
    destruct (read_response _ r env _) as [[a|e|] s1]; simpl in *; subst; try done.
    apply request_catch_state.
  - rewrite (request_rejected _ _ _ _ _ _ _ H). apply request_catch_state.
Qed.

Lemma request_sent c method path options env s :
  sent (request c method path options env s).2
  = sent s ++ [fetch_init c method path options].
Proof. by rewrite request_state. Qed.

(** [request] throws nothing but a [VanishError]. *)
Lemma request_throws_Vanish c method path options env s e :
  (request c method path options env s).1 = Throw e -> exists v, e = Vanish v.
Proof.
  destruct (settles (net env (length (sent s)))) as [r|f] eqn:H.
  - rewrite (request_resolved _ _ _ _ _ _ _ H). unfold try_catch.
    destruct (read_response _ r env _) as [[a|e'|] s1]; simpl; try done.
    destruct e' as [v|[|d]]; simpl; intros [= <-]; eauto.
  - rewrite (request_rejected _ _ _ _ _ _ _ H).
    destruct f; simpl; intros [= <-]; eauto.
Qed.

(** [request] always finishes. *)
Lemma request_finishes c method path options env s :
  (request c method path options env s).1 <> Spin.
Proof.
  destruct (settles (net env (length (sent s)))) as [r|f] eqn:H.
  - rewrite (request_resolved _ _ _ _ _ _ _ H). unfold try_catch, read_response.
    destruct (negb (ok r)).
    + unfold throw_VanishError. by destruct (Js.ToString _).
    + destruct (rawResponse options).
      * unfold bind. by destruct (arrayBuffer r) as [d|[|d]].
      * by destruct (json r) as [d|[|d]].
  - rewrite (request_rejected _ _ _ _ _ _ _ H). by destruct f.
Qed.

End Request.

Ltac unfold_ops :=
  unfold run, getDomains, generateEmail, listEmails, getEmail, getAttachment,
    deleteEmail, deleteMailbox, pollForEmails in *.

(** The first check of a poll whose deadline lies ahead. *)
Lemma pollForEmails_first fuel c address timeout interval initialCount
    (env : Env (PaginatedEmailList.t string)) s :
  (0 < timeout)%Z ->
  pollForEmails (S fuel) c address timeout interval initialCount env s
  = bind (listEmails c address poll_options)
      (fun result =>
         if (initialCount <? PaginatedEmailList.total result)%Z
            && (0 <? length (PaginatedEmailList.data result))%nat
         then ret (head (PaginatedEmailList.data result))
         else sleep interval ;;;
              poll_loop fuel c address interval initialCount (now s + timeout))
      env s.
Proof.
  intros Ht. unfold pollForEmails. cbn [poll_loop]. unfold bind at 1 2, Date_now.
  replace (now s <? now s + timeout)%Z with true by (symmetry; apply Z.ltb_lt; lia).
  reflexivity.
Qed.

Ltac enter_poll Hb :=
  lazymatch type of Hb with
  | (0 < ?fuel)%nat /\ _ =>
      destruct Hb as [? ?]; destruct fuel as [|?]; [lia|];
      unfold run; rewrite pollForEmails_first by done
  | _ => idtac
  end.

(** An operation that begins with a request whose [fetch] is rejected throws
    what the [catch] block of [request] makes of the rejection. *)
Lemma run_rejected {T A} (op : Operation T A) c (env : Env T) s f :
  begins op ->
  settles (net env (length (sent s))) = Rejected f ->
  (run c op env s).1 = (request_catch (T:=T) (A:=A) (Platform f) env s).1.
Proof.
  intros Hb H. destruct op; simpl in Hb;
    enter_poll Hb;
    unfold_ops; unfold bind; rewrite (request_rejected _ _ _ _ _ _ _ H);
    by destruct f.
Qed.

(** An operation that begins with a request whose [fetch] resolves with a
    response that is not [ok] throws what [request] throws for it. *)
Lemma run_not_ok {T A} (op : Operation T A) c (env : Env T) s r :
  begins op ->
  settles (net env (length (sent s))) = Resolved r ->
  ok r = false ->
  (run c op env s).1
  = (try_catch (throw_VanishError (T:=T) (A:=A) (error_message r) (Some (status r)))
       request_catch env s).1.
Proof.
  intros Hb H Hok. destruct op; simpl in Hb;
    enter_poll Hb;
    unfold_ops; unfold bind; rewrite (request_resolved _ _ _ _ _ _ _ H);
    unfold try_catch, read_response; rewrite Hok; simpl;
    unfold throw_VanishError; by destruct (Js.ToString (error_message r)).
Qed.

(** An operation that begins with a request whose response is [ok] but whose
    body cannot be read throws what the [catch] block makes of the failure. *)
Lemma run_body_rejected {T A} (op : Operation T A) c (env : Env T) s r f :
  begins op ->
  settles (net env (length (sent s))) = Resolved r ->
  ok r = true ->
  (if is_raw op then arrayBuffer r = Rejected f else json r = Rejected f) ->
  (run c op env s).1 = (request_catch (T:=T) (A:=A) (Platform f) env s).1.
Proof.
  intros Hb H Hok Hbody. destruct op; simpl in Hb, Hbody;
    enter_poll Hb;
    unfold_ops; unfold bind; rewrite (request_resolved _ _ _ _ _ _ _ H);
    unfold try_catch, read_response; rewrite Hok; simpl;
    try unfold bind; rewrite Hbody; by destruct f.
Qed.

(** ** Error mapping *)

Lemma thrown_http {T A} (r : Response T) (env : Env T) s (v : Js.any) m :
  error_message r = v -> Js.ToString v = Some m ->
  (try_catch (throw_VanishError (T:=T) (A:=A) (error_message r) (Some (status r)))
     request_catch env s).1 = Throw (Vanish (http_error r m)).
Proof.
  intros -> Hm. unfold try_catch, throw_VanishError. by rewrite Hm.
Qed.

(** C3, as the code has it.  When the response of the request has a status
    outside 200-299, the operation throws a [VanishError].  That error
    carries the status, and its message is:
    - the [error] property of the JSON body when that property is a string
      that is not empty, and more generally the string form of that property
      when it is truthy and has one;
    - the status text of the response when the body is absent or is not JSON
      (reading it is rejected), and also whenever the body is JSON but holds
      no truthy [error] property: it is not an object, the object has no
      [error] property, or the property is falsy.
    In the one case that is left, a truthy [error] property that has no
    string form, the TypeError of the conversion is caught by the [catch]
    block of [request]: the error carries no status, and its message is
    [Request failed: ] followed by the description of the TypeError. *)
Theorem http_error_message {T A} (op : Operation T A) c (env : Env T) s r :
  begins op ->
  settles (net env (length (sent s))) = Resolved r ->
  ok r = false ->
  (forall props m,
      jsonAny r = Resolved (Js.JObj props) ->
      Js.own "error" props = Some (Js.JStr m) -> m <> "" ->
      (run c op env s).1 = Throw (Vanish (http_error r m)))
  /\ (forall props e m,
      jsonAny r = Resolved (Js.JObj props) ->
      Js.own "error" props = Some e -> Js.truthy e = true -> Js.ToString e = Some m ->
      (run c op env s).1 = Throw (Vanish (http_error r m)))
  /\ (forall f,
      jsonAny r = Rejected f ->
      (run c op env s).1 = Throw (Vanish (http_error r (statusText r))))
  /\ (forall props,
      jsonAny r = Resolved (Js.JObj props) ->
      Js.own "error" props = None ->
      (run c op env s).1 = Throw (Vanish (http_error r (statusText r))))
  /\ (forall props e,
      jsonAny r = Resolved (Js.JObj props) ->
      Js.own "error" props = Some e -> Js.truthy e = false ->
      (run c op env s).1 = Throw (Vanish (http_error r (statusText r))))
  /\ (forall v,
      jsonAny r = Resolved v -> (forall props, v <> Js.JObj props) ->
      (run c op env s).1 = Throw (Vanish (http_error r (statusText r))))
  /\ (forall props e,
      jsonAny r = Resolved (Js.JObj props) ->
      Js.own "error" props = Some e -> Js.truthy e = true -> Js.ToString e = None ->
      (run c op env s).1
      = Throw (Vanish {| message := "Request failed: " +:+ Js.TypeError_primitive;
                         statusCode := None |})).
Proof.
  intros Hb Hx Hok. rewrite (run_not_ok op c env s r Hb Hx Hok).
  repeat split.
  - intros props m Hj He Hm. apply thrown_http with (v := Js.JStr m); [|done].
    unfold error_message. rewrite Hj. simpl. rewrite He. simpl.
    destruct (String.eqb_spec m ""); [done|]. done.
  - intros props e m Hj He Ht Hm. apply thrown_http with (v := e); [|done].
    unfold error_message. rewrite Hj. simpl. by rewrite He, Ht.
  - intros f Hj. apply thrown_http with (v := Js.JStr (statusText r)); [|done].
    unfold error_message. by rewrite Hj.
  - intros props Hj He. apply thrown_http with (v := Js.JStr (statusText r)); [|done].
    unfold error_message. rewrite Hj. simpl. by rewrite He.
  - intros props e Hj He Ht. apply thrown_http with (v := Js.JStr (statusText r)); [|done].
    unfold error_message. rewrite Hj. simpl. by rewrite He, Ht.
  - intros v Hj Hv. apply thrown_http with (v := Js.JStr (statusText r)); [|done].
    unfold error_message. rewrite Hj.
    destruct v; simpl; try done. by destruct (Hv props).
  - intros props e Hj He Ht Hm. unfold try_catch, throw_VanishError, error_message.
    rewrite Hj. simpl. by rewrite He, Ht, Hm.
Qed.

(** C8, as the code has it.  A request that is cancelled by the timeout
    while [fetch] is pending, or while the body of an [ok] response is read,
    makes the operation throw a [VanishError] with the message
    [Request timeout] and no status code; any other failure at these two
    points makes it throw a [VanishError] with no status code whose message
    is [Request failed: ] followed by the description of the failure.  A
    cancellation or failure that strikes while the body of a response that
    is not [ok] is read is absorbed by the fallback of the error message:
    the operation throws the error of the HTTP status, with the status text
    and the status code. *)
Theorem transport_errors {T A} (op : Operation T A) c (env : Env T) s :
  begins op ->
  (settles (net env (length (sent s))) = Rejected AbortError ->
   (run c op env s).1 = Throw (Vanish timeout_error))
  /\ (forall descr,
      settles (net env (length (sent s))) = Rejected (OtherError descr) ->
      (run c op env s).1
      = Throw (Vanish {| message := "Request failed: " +:+ descr; statusCode := None |}))
  /\ (forall r,
      settles (net env (length (sent s))) = Resolved r -> ok r = true ->
      (if is_raw op then arrayBuffer r = Rejected AbortError
       else json r = Rejected AbortError) ->
      (run c op env s).1 = Throw (Vanish timeout_error))
  /\ (forall r descr,
      settles (net env (length (sent s))) = Resolved r -> ok r = true ->
      (if is_raw op then arrayBuffer r = Rejected (OtherError descr)
       else json r = Rejected (OtherError descr)) ->
      (run c op env s).1
      = Throw (Vanish {| message := "Request failed: " +:+ descr; statusCode := None |}))
  /\ (forall r f,
      settles (net env (length (sent s))) = Resolved r -> ok r = false ->
      jsonAny r = Rejected f ->
      (run c op env s).1 = Throw (Vanish (http_error r (statusText r)))).
Proof.
  intros Hb. repeat split.
  - intros H. by rewrite (run_rejected op c env s _ Hb H).
  - intros d H. by rewrite (run_rejected op c env s _ Hb H).
  - intros r H Hok Hbody. by rewrite (run_body_rejected op c env s r _ Hb H Hok Hbody).
  - intros r d H Hok Hbody. by rewrite (run_body_rejected op c env s r _ Hb H Hok Hbody).
  - intros r f H Hok Hj. rewrite (run_not_ok op c env s r Hb H Hok).
    apply thrown_http with (v := Js.JStr (statusText r)); [|done].
    unfold error_message. by rewrite Hj.
Qed.

(** The example of the specification: status 404 with the JSON body
    [{"error":"bad id"}] gives the message [bad id] and the status code 404. *)
Lemma http_error_message_witness :
  begins attachment_op
  /\ settles (net bad_id_env (length (sent start))) = Resolved bad_id
  /\ ok bad_id = false
  /\ (run anonymous attachment_op bad_id_env start).1
     = Throw (Vanish {| message := "bad id"; statusCode := Some 404%Z |}).
Proof.
  assert (Hb : begins attachment_op) by exact I.
  assert (Hx : settles (net bad_id_env (length (sent start))) = Resolved bad_id)
    by reflexivity.
  assert (Hok : ok bad_id = false) by reflexivity.
  split; [exact Hb|]. split; [exact Hx|]. split; [exact Hok|].
  destruct (http_error_message attachment_op anonymous bad_id_env start bad_id Hb Hx Hok)
    as [H _].
  apply (H [("error", Js.JStr "bad id")] "bad id"); [reflexivity|reflexivity|done].
Defined.

(** Status 404 with the JSON body [{"error":{"toString":1}}]: the message has
    no string form, and the error that is thrown carries no status code. *)
Lemma unconvertible_error_message :
  settles (net unconvertible_env (length (sent start))) = Resolved unconvertible_404
  /\ ok unconvertible_404 = false
  /\ (run anonymous attachment_op unconvertible_env start).1
     = Throw (Vanish {| message := "Request failed: TypeError: Cannot convert object to primitive value";
                        statusCode := None |}).
Proof. by repeat split. Qed.

(** C3 as stated fails: the body [{}] is present and is JSON, and yet the
    message is the status text. *)
Lemma http_error_message_counterexample :
  settles (net empty_404_env (length (sent start))) = Resolved empty_object_404
  /\ ok empty_object_404 = false
  /\ jsonAny empty_object_404 = Resolved (Js.JObj [])
  /\ (run anonymous attachment_op empty_404_env start).1
     = Throw (Vanish {| message := "Not Found"; statusCode := Some 404%Z |}).
Proof. repeat split. Qed.

Lemma transport_errors_witness :
  begins GetDomains
  /\ settles (net times_out (length (sent start))) = Rejected AbortError
  /\ (run anonymous GetDomains times_out start).1
     = Throw (Vanish {| message := "Request timeout"; statusCode := None |}).
Proof.
  assert (Hb : begins GetDomains) by exact I.
  split; [exact Hb|]. split; [reflexivity|].
  destruct (transport_errors GetDomains anonymous times_out start Hb) as [H _].
  apply H. reflexivity.
Defined.

(** C8 as stated fails: the timeout cancels the request while the body of a
    503 response is read, and the operation throws an error that carries the
    status code 503 and the status text, not [Request timeout]. *)
Lemma transport_errors_counterexample :
  settles (net aborted_503_env (length (sent start))) = Resolved aborted_503
  /\ jsonAny aborted_503 = Rejected AbortError
  /\ (run anonymous GetDomains aborted_503_env start).1
     = Throw (Vanish {| message := "Service Unavailable"; statusCode := Some 503%Z |})
  /\ (run anonymous GetDomains aborted_503_env start).1 <> Throw (Vanish timeout_error).
Proof. repeat split. discriminate. Qed.

(** ** Strings *)

Lemma append_cons c s t : String c s +:+ t = String c (s +:+ t).
Proof. reflexivity. Qed.

Lemma append_empty_r s : s +:+ "" = s.
Proof. induction s as [|c s IH]; [done|]. by rewrite append_cons, IH. Qed.

Lemma append_assoc s t u : (s +:+ t) +:+ u = s +:+ (t +:+ u).
Proof. induction s as [|c s IH]; [done|]. by rewrite !append_cons, IH. Qed.

Lemma all_chars_app p s t : all_chars p (s +:+ t) = all_chars p s && all_chars p t.
Proof.
  induction s as [|c s IH]; [done|].
  rewrite append_cons. simpl. rewrite IH. by rewrite andb_assoc.
Qed.

(** ** The state an operation leaves *)

Lemma bind_state {T A B} (m : M T A) (k : A -> M T B) (env : Env T) s :
  (forall a s', (k a env s').2 = s') ->
  (bind m k env s).2 = (m env s).2.
Proof.
  intros Hk. unfold bind. destruct (m env s) as [[a|e|] s1]; simpl; auto.
Qed.

Lemma listEmails_state c address options (env : Env (PaginatedEmailList.t string)) s :
  (listEmails c address options env s).2 = fetched env s (listEmails_call c address options).
Proof.
  unfold listEmails. rewrite bind_state by done. apply request_state.
Qed.

Lemma listEmails_ok c address options (env : Env (PaginatedEmailList.t string)) s page :
  answers env (length (sent s)) page ->
  listEmails c address options env s
  = (Ret (listed env page), fetched env s (listEmails_call c address options)).
Proof.
  intros (r & Hx & Hok & Hj). unfold listEmails, bind.
  rewrite (request_resolved _ _ _ _ _ _ _ Hx). unfold try_catch, read_response.
  rewrite Hok. simpl. by rewrite Hj.
Qed.

Lemma listEmails_outcome c address options (env : Env (PaginatedEmailList.t string)) s :
  (listEmails c address options env s).1 <> Spin.
Proof.
  unfold listEmails, bind.
  pose proof (request_finishes (T:=PaginatedEmailList.t string) c "GET"
    ("/mailbox/" +:+ Js.encodeURIComponent address)
    {| params := Some [("limit", PNumber <$> limit options);
                       ("cursor", PString <$> cursor options)];
       req_body := None; rawResponse := false |} env s) as H.
  destruct (request _ _ _ _ env s) as [[a|e|] s1]; simpl in *; done.
Qed.

(** ** The polling loop *)

(** A timer waits no longer than its delay, and never a negative time. *)
Lemma timer_delay_bounds ms :
  (0 <= Js.timer_delay ms <= Z.max 0 ms)%Z.
Proof.
  unfold Js.timer_delay.
  destruct (Z.leb_spec 0 ms); destruct (Z.leb_spec ms Js.TIMEOUT_MAX); simpl; lia.
Qed.

(** A delay that fits 32 bits is waited for in full. *)
Lemma timer_delay_honoured ms :
  (0 <= ms <= Js.TIMEOUT_MAX)%Z -> Js.timer_delay ms = ms.
Proof.
  intros H. unfold Js.timer_delay.
  destruct (Z.leb_spec 0 ms); destruct (Z.leb_spec ms Js.TIMEOUT_MAX); simpl; lia.
Qed.

Section Polling.
Context (env : Env (PaginatedEmailList.t string)).
Context (c : VanishClient) (address : string) (interval initialCount : Z).

Local Abbreviation call := (listEmails_call c address poll_options).
Local Abbreviation loop fuel deadline :=
  (poll_loop fuel c address interval initialCount deadline).

(** The loop ends without a call once the deadline is reached. *)
Lemma poll_loop_deadline fuel deadline s :
  (deadline <= now s)%Z ->
  loop (S fuel) deadline env s = (Ret None, s).
Proof.
  intros H. cbn [poll_loop]. unfold bind, Date_now.
  replace (now s <? deadline)%Z with false by (symmetry; apply Z.ltb_ge; lia).
  reflexivity.
Qed.

(** A check before the deadline that finds nothing new sleeps and loops. *)
Lemma poll_loop_quiet fuel deadline s page :
  (now s < deadline)%Z ->
  answers env (length (sent s)) page ->
  (initialCount <? PaginatedEmailList.total page)%Z
    && (0 <? length (PaginatedEmailList.data page))%nat = false ->
  loop (S fuel) deadline env s
  = loop fuel deadline env (slept env (fetched env s call) interval).
Proof.
  intros Ht Ha Hq. cbn [poll_loop]. unfold bind at 1, Date_now.
  replace (now s <? deadline)%Z with true by (symmetry; apply Z.ltb_lt; lia).
  unfold bind at 1. rewrite (listEmails_ok _ _ _ _ _ _ Ha).
  unfold listed at 1 2. cbn [PaginatedEmailList.total PaginatedEmailList.data].
  rewrite length_map, Hq. reflexivity.
Qed.

(** A check before the deadline that finds a new message returns its first
    item, without sleeping. *)
Lemma poll_loop_found fuel deadline s page :
  (now s < deadline)%Z ->
  answers env (length (sent s)) page ->
  (initialCount < PaginatedEmailList.total page)%Z ->
  PaginatedEmailList.data page <> [] ->
  loop (S fuel) deadline env s
  = (Ret (head (PaginatedEmailList.data (listed env page))), fetched env s call).
Proof.
  intros Ht Ha Hc Hd. cbn [poll_loop]. unfold bind at 1, Date_now.
  replace (now s <? deadline)%Z with true by (symmetry; apply Z.ltb_lt; lia).
  unfold bind at 1. rewrite (listEmails_ok _ _ _ _ _ _ Ha).
  replace (initialCount <? PaginatedEmailList.total (listed env page))%Z with true
    by (symmetry; apply Z.ltb_lt; done).
  replace (0 <? length (PaginatedEmailList.data (listed env page)))%nat with true.
  - reflexivity.
  - symmetry. apply Nat.ltb_lt. unfold listed. cbn [PaginatedEmailList.data].
    rewrite length_map. destruct (PaginatedEmailList.data page); [done|simpl; lia].
Qed.

(** A check before the deadline in which [listEmails] throws ends the loop
    with that error, in the state [listEmails] left. *)
Lemma poll_loop_throws fuel deadline s e :
  (now s < deadline)%Z ->
  (listEmails c address poll_options env s).1 = Throw e ->
  loop (S fuel) deadline env s = (Throw e, fetched env s call).
Proof.
  intros Ht He. cbn [poll_loop]. unfold bind at 1, Date_now.
  replace (now s <? deadline)%Z with true by (symmetry; apply Z.ltb_lt; lia).
  unfold bind at 1. pose proof (listEmails_state c address poll_options env s) as Hs.
  destruct (listEmails c address poll_options env s) as [[a|e'|] s1];
    simpl in *; try done. by inversion He; subst.
Qed.

Lemma after_checks_S n s :
  after_checks env call interval (S n) s
  = slept env (fetched env (after_checks env call interval n s) call) interval.
Proof.
  revert s. induction n as [|n IH]; intros s; [done|].
  change (after_checks env call interval (S (S n)) s)
    with (after_checks env call interval (S n) (slept env (fetched env s call) interval)).
  rewrite IH. reflexivity.
Qed.

Lemma after_checks_sent n s :
  sent (after_checks env call interval n s) = sent s ++ repeat call n.
Proof.
  induction n as [|n IH]; [by rewrite app_nil_r|].
  rewrite after_checks_S. simpl. rewrite IH, <- app_assoc. f_equal.
  by rewrite repeat_cons.
Qed.

Lemma after_checks_timers n s :
  timers (after_checks env call interval n s) = timers s ++ repeat interval n.
Proof.
  induction n as [|n IH]; [by rewrite app_nil_r|].
  rewrite after_checks_S. simpl. rewrite IH, <- app_assoc. f_equal.
  by rewrite repeat_cons.
Qed.

Lemma after_checks_calls n s :
  length (sent (after_checks env call interval n s)) = (length (sent s) + n)%nat.
Proof. by rewrite after_checks_sent, length_app, repeat_length. Qed.

(** The clock moves on by at least the delay of the timer with every
    check. *)
Lemma after_checks_now n s :
  (now s + Z.of_nat n * Js.timer_delay interval
   <= now (after_checks env call interval n s))%Z.
Proof.
  pose proof (timer_delay_bounds interval) as Hd.
  induction n as [|n IH]; [simpl; lia|].
  rewrite after_checks_S. cbn [now slept fetched]. lia.
Qed.

Lemma after_checks_mono k n s :
  (k <= n)%nat ->
  (now (after_checks env call interval k s) <= now (after_checks env call interval n s))%Z.
Proof.
  pose proof (timer_delay_bounds interval) as Hd.
  induction 1 as [|n Hle IH]; [lia|].
  rewrite (after_checks_S n). cbn [now slept fetched]. lia.
Qed.

(** [n] checks that find nothing new, each begun before the deadline, take
    the loop to the state after them. *)
Lemma poll_loop_checks n fuel deadline s :
  (forall k, (k < n)%nat ->
     exists page, answers env (length (sent s) + k) page
       /\ (initialCount <? PaginatedEmailList.total page)%Z
            && (0 <? length (PaginatedEmailList.data page))%nat = false) ->
  (forall k, (k < n)%nat -> (now (after_checks env call interval k s) < deadline)%Z) ->
  loop (n + fuel) deadline env s
  = loop fuel deadline env (after_checks env call interval n s).
Proof.
  revert s. induction n as [|n IH]; intros s Hq Ht; [done|].
  destruct (Hq 0%nat ltac:(lia)) as (page & Ha & Hp).
  rewrite Nat.add_0_r in Ha.
  change (S n + fuel)%nat with (S (n + fuel)).
  rewrite (poll_loop_quiet _ _ _ page); [|exact (Ht 0%nat ltac:(lia))|done|done].
  rewrite IH; [done| |].
  - intros k Hk. destruct (Hq (S k) ltac:(lia)) as (p & Hp1 & Hp2).
    exists p. split; [|done]. simpl. rewrite length_app. simpl.
    by replace (length (sent s) + 1 + k)%nat with (length (sent s) + S k)%nat by lia.
  - intros k Hk. exact (Ht (S k) ltac:(lia)).
Qed.


End Polling.

Lemma pollForEmails_loop fuel c address timeout interval initialCount
    (env : Env (PaginatedEmailList.t string)) s :
  pollForEmails fuel c address timeout interval initialCount env s
  = poll_loop fuel c address interval initialCount (now s + timeout) env s.
Proof. reflexivity. Qed.

Lemma ceil_div_bound a b : (0 < b)%Z -> (a <= ceil_div a b * b)%Z.
Proof.
  intros Hb. unfold ceil_div.
  pose proof (Z.div_mod (a + b - 1) b ltac:(lia)) as Hd.
  pose proof (Z.mod_pos_bound (a + b - 1) b Hb) as Hr. nia.
Qed.

Lemma ceil_div_nonneg a b : (0 <= a)%Z -> (0 < b)%Z -> (0 <= ceil_div a b)%Z.
Proof. intros Ha Hb. unfold ceil_div. apply Z.div_pos; lia. Qed.

(** ** Polling: the properties of the specification *)

(** C1.  Let the listing endpoint answer the first [N] checks of a poll with
    total [C] (and any items) and check [N + 1] with total [C + 1] and the
    items [first :: rest], and let check [N + 1] begin before the deadline:
    the clock after [N] checks and sleeps is below [now + T].  Then
    [pollForEmails(address, T, I, C)] returns the first item of that answer
    (its timestamp made a date, as [listEmails] does), and it has made
    exactly [N + 1] calls, each the call of [listEmails] with [limit] 1. *)
Theorem poll_returns_first_new_message
    (env : Env (PaginatedEmailList.t string)) c address (T I C : Z) s
    (N : nat) page first rest :
  (0 < T)%Z -> (0 < I)%Z ->
  (forall k, (k < N)%nat ->
     exists p, answers env (length (sent s) + k) p /\ PaginatedEmailList.total p = C) ->
  answers env (length (sent s) + N) page ->
  PaginatedEmailList.total page = (C + 1)%Z ->
  PaginatedEmailList.data page = first :: rest ->
  (now (after_checks env (listEmails_call c address poll_options) I N s) < now s + T)%Z ->
  forall fuel, (N < fuel)%nat ->
    let final := (pollForEmails fuel c address T I C env s).2 in
    (pollForEmails fuel c address T I C env s).1
    = Ret (Some (EmailSummary.with_receivedAt first
                   (Js.new_Date (parse_other env)
                      (Js.OfString (EmailSummary.receivedAt first)))))
    /\ sent final = sent s ++ repeat (listEmails_call c address poll_options) (N + 1)
    /\ url (listEmails_call c address poll_options)
       = baseUrl c +:+ "/mailbox/" +:+ Js.encodeURIComponent address +:+ "?limit=1".
Proof.
  intros HT HI Hq Ha Htot Hdata Hclock fuel Hfuel final. subst final.
  rewrite pollForEmails_loop.
  replace fuel with (N + S (fuel - N - 1))%nat by lia.
  rewrite poll_loop_checks.
  - rewrite (poll_loop_found env c address I C _ _ _ page).
    + cbn [fst snd]. split; [|split].
      * unfold listed. cbn [PaginatedEmailList.data]. by rewrite Hdata.
      * cbn [sent fetched]. rewrite after_checks_sent, <- app_assoc. f_equal.
        rewrite repeat_app. reflexivity.
      * unfold listEmails_call, fetch_init, request_url. cbn.
        by rewrite !append_assoc.
    + exact Hclock.
    + by rewrite after_checks_calls.
    + lia.
    + by rewrite Hdata.
  - intros k Hk. destruct (Hq k Hk) as (p & Hp & Hc). exists p. split; [done|].
    rewrite Hc. replace (C <? C)%Z with false by (symmetry; apply Z.ltb_ge; lia). done.
  - intros k Hk.
    pose proof (after_checks_mono env c address I k N s ltac:(lia)). lia.
Qed.


(** C6.  When, after [n] checks that found nothing new, the next check
    begins before the deadline and its call to [listEmails] throws [e],
    [pollForEmails] throws [e].  It ends in the state that call left: with
    [n + 1] calls made and [n] sleeps, so no call and no sleep follows the
    failure, and the outcome is the error and not [null]. *)
Theorem poll_propagates_error
    (env : Env (PaginatedEmailList.t string)) c address (T I C : Z) s (n : nat) e :
  (forall k, (k < n)%nat ->
     exists p, answers env (length (sent s) + k) p
       /\ (C <? PaginatedEmailList.total p)%Z
            && (0 <? length (PaginatedEmailList.data p))%nat = false) ->
  (now (after_checks env (listEmails_call c address poll_options) I n s) < now s + T)%Z ->
  (listEmails c address poll_options env
     (after_checks env (listEmails_call c address poll_options) I n s)).1 = Throw e ->
  forall fuel, (n < fuel)%nat ->
    let final := (pollForEmails fuel c address T I C env s).2 in
    (pollForEmails fuel c address T I C env s).1 = Throw e
    /\ final = (listEmails c address poll_options env
                  (after_checks env (listEmails_call c address poll_options) I n s)).2
    /\ sent final = sent s ++ repeat (listEmails_call c address poll_options) (n + 1)
    /\ timers final = timers s ++ repeat I n.
Proof.
  intros Hq Hclock He fuel Hfuel final. subst final. rewrite pollForEmails_loop.
  replace fuel with (n + S (fuel - n - 1))%nat by lia.
  rewrite poll_loop_checks.
  - rewrite (poll_loop_throws env c address I C _ _ _ e Hclock He). cbn [fst snd].
    split; [done|]. split; [by rewrite listEmails_state|]. split.
    + cbn [sent fetched]. rewrite after_checks_sent, <- app_assoc. f_equal.
      rewrite repeat_app. reflexivity.
    + cbn [timers fetched]. apply after_checks_timers.
  - exact Hq.
  - intros k Hk.
    pose proof (after_checks_mono env c address I k n s ltac:(lia)). lia.
Qed.

Lemma poll_returns_first_new_message_witness :
  (pollForEmails 3 anonymous "box@vanish.host" 60000 5000 0 arrives_third start).1
  = Ret (Some (EmailSummary.Make "m1" "alice@example.org" "Hello" "Hello, world"
                 (Js.MkDate (Some 1704067200000%Z)) false))
  /\ length (sent (pollForEmails 3 anonymous "box@vanish.host" 60000 5000 0
                     arrives_third start).2) = 3%nat.
Proof.
  destruct (poll_returns_first_new_message arrives_third anonymous "box@vanish.host"
              60000 5000 0 start 2 (PaginatedEmailList.Make [hello] None 1) hello [])
    with (fuel := 3%nat) as (Hr & Hs & _).
  - lia.
  - lia.
  - intros k Hk. exists (PaginatedEmailList.Make [] None 0). split; [|done].
    exists (page_response 0 []).
    destruct k as [|[|k]]; [by repeat split|by repeat split|lia].
  - exists (page_response 1 [hello]). by repeat split.
  - reflexivity.
  - reflexivity.
  - vm_compute. reflexivity.
  - lia.
  - split; [exact Hr|]. rewrite Hs. reflexivity.
Defined.



Lemma poll_propagates_error_witness :
  (pollForEmails 5 anonymous "box@vanish.host" 60000 5000 0 fails_second start).1
  = Throw (Vanish {| message := "Request failed: TypeError: fetch failed";
                     statusCode := None |})
  /\ length (sent (pollForEmails 5 anonymous "box@vanish.host" 60000 5000 0
                     fails_second start).2) = 2%nat
  /\ length (timers (pollForEmails 5 anonymous "box@vanish.host" 60000 5000 0
                       fails_second start).2) = 1%nat.
Proof.
  destruct (poll_propagates_error fails_second anonymous "box@vanish.host"
              60000 5000 0 start 1
              (Vanish {| message := "Request failed: TypeError: fetch failed";
                         statusCode := None |}))
    with (fuel := 5%nat) as (Hr & _ & Hs & Ht).
  - intros k Hk. exists (PaginatedEmailList.Make [] None 0). split; [|done].
    exists (page_response 0 []). destruct k as [|k]; [by repeat split|lia].
  - vm_compute. reflexivity.
  - reflexivity.
  - lia.
  - split; [exact Hr|]. rewrite Hs, Ht. by split.
Defined.

(** ** The requests an operation issues *)

Lemma poll_loop_sent fuel c address interval initialCount deadline
    (env : Env (PaginatedEmailList.t string)) s :
  exists n,
    sent (poll_loop fuel c address interval initialCount deadline env s).2
    = sent s ++ repeat (listEmails_call c address poll_options) n.
Proof.
  revert s. induction fuel as [|fuel IH]; intros s.
  - exists 0%nat. simpl. by rewrite app_nil_r.
  - cbn [poll_loop]. unfold bind at 1, Date_now.
    destruct (now s <? deadline)%Z; [|exists 0%nat; simpl; by rewrite app_nil_r].
    unfold bind at 1.
    pose proof (listEmails_state c address poll_options env s) as Hs.
    destruct (listEmails c address poll_options env s) as [[result|e|] s1];
      simpl in Hs; subst s1; try (exists 1%nat; reflexivity).
    destruct (_ && _); [exists 1%nat; reflexivity|].
    unfold bind, sleep.
    destruct (IH (slept env (fetched env s (listEmails_call c address poll_options))
                    interval)) as (n & Hn).
    exists (S n). unfold slept in Hn. rewrite Hn. cbn [sent fetched].
    by rewrite <- app_assoc.
Qed.

Lemma getAttachment_sent {T} c emailId attachmentId (env : Env T) s :
  sent (getAttachment c emailId attachmentId env s).2
  = sent s ++ [fetch_init c "GET"
                 ("/email/" +:+ emailId +:+ "/attachments/" +:+ attachmentId)
                 {| params := None; req_body := None; rawResponse := true |}].
Proof.
  exact (request_sent c "GET" _
           {| params := None; req_body := None; rawResponse := true |} env s).
Qed.

(** Every call an operation makes is built by [request]: it carries the
    headers of [request_headers]. *)
Lemma run_sent {T A} (op : Operation T A) c (env : Env T) s :
  exists calls,
    sent (run c op env s).2 = sent s ++ calls
    /\ Forall (fun call => req_headers call = request_headers c) calls.
Proof.
  destruct op as [ | ? | ? ? | ? | ? ? ? | ? | ? | fuel address tmo interval initialCount];
    try (eexists; split;
         [unfold_ops; rewrite ?bind_state by done;
          first [apply request_sent | apply getAttachment_sent]
         |by repeat constructor]).

  unfold run. rewrite pollForEmails_loop.
  destruct (poll_loop_sent fuel c address interval initialCount (now s + tmo) env s)
    as (n & Hn).
  eexists. split; [exact Hn|]. apply List.Forall_forall.
  by intros call ->%repeat_spec.
Qed.

Lemma request_headers_bearer c k :
  apiKey c = Some k -> k <> "" ->
  request_headers c !! "Authorization" = Some ("Bearer " +:+ k).
Proof.
  intros Hk Hne. unfold request_headers. rewrite Hk.
  destruct (String.eqb_spec k ""); [done|]. by rewrite lookup_insert_eq.
Qed.

Lemma request_headers_none c :
  apiKey c = None \/ apiKey c = Some "" ->
  request_headers c !! "Authorization" = None.
Proof.
  intros [Hk|Hk]; unfold request_headers; rewrite Hk; simpl;
    by rewrite lookup_singleton_ne.
Qed.

(** C5, as the code has it.  When the client holds an API key that is not
    the empty string, every request of every operation carries the header
    [Authorization: Bearer <key>]; when it holds no key, or the empty
    string, no request carries an [Authorization] header. *)
Theorem authorization_header {T A} (op : Operation T A) c (env : Env T) s :
  exists calls,
    sent (run c op env s).2 = sent s ++ calls
    /\ (forall k, apiKey c = Some k -> k <> "" ->
        Forall (fun call => req_headers call !! "Authorization" = Some ("Bearer " +:+ k))
          calls)
    /\ (apiKey c = None \/ apiKey c = Some "" ->
        Forall (fun call => req_headers call !! "Authorization" = None) calls).
Proof.
  destruct (run_sent op c env s) as (calls & Hs & Hh).
  exists calls. split; [exact Hs|]. split.
  - intros k Hk Hne. eapply Forall_impl; [exact Hh|].
    intros call ->. by apply request_headers_bearer.
  - intros Hk. eapply Forall_impl; [exact Hh|].
    intros call ->. by apply request_headers_none.
Qed.

Lemma authorization_header_witness :
  Forall (fun call => req_headers call !! "Authorization" = Some "Bearer secret")
    (sent (run keyed (PollForEmails 3 "box@vanish.host" 60000 5000 0)
             arrives_third start).2)
  /\ length (sent (run keyed (PollForEmails 3 "box@vanish.host" 60000 5000 0)
                     arrives_third start).2) = 3%nat.
Proof.
  destruct (authorization_header
              (PollForEmails 3 "box@vanish.host" 60000 5000 0) keyed arrives_third start)
    as (calls & Hs & Hk & _).
  split; [|reflexivity].
  rewrite Hs. apply (Hk "secret"); [reflexivity|discriminate].
Defined.

(** C5 as stated fails: the API key is set, to the empty string, and the
    request carries no [Authorization] header. *)
Lemma authorization_header_counterexample :
  apiKey blank_key = Some ""
  /\ exists call,
       sent (run blank_key GetDomains domains_env start).2 = [call]
       /\ req_headers call !! "Authorization" = None
       /\ req_headers call !! "Authorization" <> Some ("Bearer " +:+ "").
Proof.
  split; [reflexivity|].
  eexists. split; [reflexivity|]. split; [|discriminate]. reflexivity.
Qed.

(** ** [generateEmail] *)

Lemma generateEmail_sent c options (env : Env MailboxBody) s :
  sent (generateEmail c options env s).2
  = sent s ++ [fetch_init c "POST" "/mailbox"
                 {| params := None;
                    req_body := if (0 <? length (Js.Object_keys options))%nat
                                then Some options else None;
                    rawResponse := false |}].
Proof. unfold generateEmail. rewrite bind_state by done. apply request_sent. Qed.

(** C9, as the code has it.  [generateEmail] issues one POST to [/mailbox].
    The request has no body exactly when the options object has no own
    property; when it has one, the body is the JSON text of the object (in
    which a property whose value is [undefined] does not appear).  The
    operation returns the [email] of the success body. *)
Theorem generateEmail_request c options (env : Env MailboxBody) s :
  exists call,
    sent (generateEmail c options env s).2 = sent s ++ [call]
    /\ method call = "POST"
    /\ url call = baseUrl c +:+ "/mailbox"
    /\ (body call = None <-> Js.Object_keys options = [])
    /\ (Js.Object_keys options <> [] -> body call = Some (Js.JSON_stringify options))
    /\ (forall b, answers env (length (sent s)) b ->
        (generateEmail c options env s).1 = Ret (email b)).
Proof.
  eexists. split; [apply generateEmail_sent|].
  split; [reflexivity|]. split; [reflexivity|].
  cbn [body fetch_init req_body]. unfold Js.Object_keys.
  destruct options as [|kv options]; simpl.
  - split; [done|]. split; [done|].
    intros b (r & Hx & Hok & Hj). unfold generateEmail, bind.
    rewrite (request_resolved _ _ _ _ _ _ _ Hx). unfold try_catch, read_response.
    rewrite Hok. simpl. by rewrite Hj.
  - split; [done|]. split; [done|].
    intros b (r & Hx & Hok & Hj). unfold generateEmail, bind.
    rewrite (request_resolved _ _ _ _ _ _ _ Hx). unfold try_catch, read_response.
    rewrite Hok. simpl. by rewrite Hj.
Qed.

Lemma generateEmail_request_witness :
  exists call,
    sent (generateEmail anonymous only_domain mailbox_env start).2 = [call]
    /\ body call
       = Some ("{" +:+ Js.json_quote "domain" +:+ ":" +:+ Js.json_quote "vanish.host" +:+ "}")
    /\ (generateEmail anonymous only_domain mailbox_env start).1 = Ret "test@vanish.host".
Proof.
  destruct (generateEmail_request anonymous only_domain mailbox_env start)
    as (call & Hs & _ & _ & _ & Hb & Hr).
  exists call. split; [exact Hs|]. split.
  - rewrite Hb; [reflexivity|discriminate].
  - apply (Hr {| email := "test@vanish.host" |}).
    exists mailbox_response. by repeat split.
Defined.

(** C9 as stated fails: with the options [{ domain: undefined }] both
    [domain] and [prefix] are absent, and the request carries the body
    [{}]. *)
Lemma generateEmail_request_counterexample :
  property undefined_domain "domain" = None
  /\ property undefined_domain "prefix" = None
  /\ exists call,
       sent (generateEmail anonymous undefined_domain mailbox_env start).2 = [call]
       /\ body call = Some "{}"
       /\ body call <> None.
Proof.
  split; [reflexivity|]. split; [reflexivity|].
  eexists. split; [reflexivity|]. split; [reflexivity|discriminate].
Qed.

(** ** Paths *)

Lemma encodeURIComponent_byte c :
  all_chars (fun ch => Js.uri_unreserved ch || Ascii.eqb ch "%")
    (if Js.uri_unreserved c then String c "" else Js.percent c) = true.
Proof. destruct c as [[] [] [] [] [] [] [] []]; reflexivity. Qed.

(** The output of [encodeURIComponent] holds unreserved characters and [%]
    only. *)
Lemma encodeURIComponent_chars s :
  all_chars (fun ch => Js.uri_unreserved ch || Ascii.eqb ch "%")
    (Js.encodeURIComponent s) = true.
Proof.
  induction s as [|c s IH]; [done|].
  cbn [Js.encodeURIComponent]. rewrite all_chars_app, IH, encodeURIComponent_byte. done.
Qed.

Lemma all_chars_mem p d s :
  all_chars p s = true -> p d = false -> Js.mem_char d s = false.
Proof.
  intros Hs Hd. induction s as [|c s IH]; [done|].
  simpl in *. apply andb_true_iff in Hs as [Hc Hs].
  rewrite (IH Hs), orb_false_r. destruct (Ascii.eqb_spec d c); [congruence|done].
Qed.

Lemma getEmail_sent c emailId (env : Env (EmailDetail.t string)) s :
  sent (getEmail c emailId env s).2
  = sent s ++ [fetch_init c "GET" ("/email/" +:+ emailId) no_options].
Proof. unfold getEmail. rewrite bind_state by done. apply request_sent. Qed.

Lemma deleteEmail_sent c emailId (env : Env SuccessBody) s :
  sent (deleteEmail c emailId env s).2
  = sent s ++ [fetch_init c "DELETE" ("/email/" +:+ emailId) no_options].
Proof. unfold deleteEmail. rewrite bind_state by done. apply request_sent. Qed.

Lemma deleteMailbox_sent c address (env : Env DeletedBody) s :
  sent (deleteMailbox c address env s).2
  = sent s ++ [fetch_init c "DELETE" ("/mailbox/" +:+ Js.encodeURIComponent address)
                 no_options].
Proof. unfold deleteMailbox. rewrite bind_state by done. apply request_sent. Qed.

Lemma listEmails_sent c address options (env : Env (PaginatedEmailList.t string)) s :
  sent (listEmails c address options env s).2
  = sent s ++ [listEmails_call c address options].
Proof. by rewrite listEmails_state. Qed.

Lemma listEmails_url c address options :
  exists q,
    url (listEmails_call c address options)
    = baseUrl c +:+ "/mailbox/" +:+ Js.encodeURIComponent address +:+ q
    /\ (q = "" \/ exists qs, q = "?" +:+ qs).
Proof.
  unfold listEmails_call, fetch_init, request_url. cbn [url params].
  destruct (0 <? _)%nat.
  - eexists. split; [by rewrite ?append_assoc|]. right. by eexists.
  - exists "". split; [by rewrite ?append_assoc, append_empty_r|]. by left.
Qed.

Lemma percent_decode_byte c t :
  percent_decode ((if Js.uri_unreserved c then String c "" else Js.percent c) +:+ t)
  = String c (percent_decode t).
Proof. destruct c as [[] [] [] [] [] [] [] []]; reflexivity. Qed.

(** Percent-decoding what [encodeURIComponent] wrote returns the string. *)
Lemma percent_decode_encode a : percent_decode (Js.encodeURIComponent a) = a.
Proof.
  induction a as [|c a IH]; [done|].
  cbn [Js.encodeURIComponent]. by rewrite percent_decode_byte, IH.
Qed.

(** [encodeURIComponent] works byte by byte. *)
Lemma encodeURIComponent_app a b :
  Js.encodeURIComponent (a +:+ b) = Js.encodeURIComponent a +:+ Js.encodeURIComponent b.
Proof.
  induction a as [|c a IH]; [done|].
  rewrite append_cons. cbn [Js.encodeURIComponent]. by rewrite IH, append_assoc.
Qed.

(** A string of unreserved characters is left as it is. *)
Lemma encodeURIComponent_unreserved a :
  all_chars Js.uri_unreserved a = true -> Js.encodeURIComponent a = a.
Proof.
  induction a as [|c a IH]; [done|]. cbn [all_chars Js.encodeURIComponent].
  intros [Hc Ha]%andb_true_iff. by rewrite Hc, (IH Ha).
Qed.

(** The unreserved characters, one by one. *)
Lemma uri_unreserved_table ch :
  Js.uri_unreserved ch = Js.mem_char ch unreserved_text.
Proof. destruct ch as [[] [] [] [] [] [] [] []]; reflexivity. Qed.

(** Any other byte becomes [%] and the two upper-case hexadecimal digits of
    its code. *)
Lemma encodeURIComponent_reserved ch :
  Js.uri_unreserved ch = false ->
  exists h l,
    Js.encodeURIComponent (String ch "") = String "%" (String h (String l ""))
    /\ Js.mem_char h "0123456789ABCDEF" = true
    /\ Js.mem_char l "0123456789ABCDEF" = true
    /\ Js.hex_value h = Some (Js.code ch / 16)%N
    /\ Js.hex_value l = Some (Js.code ch mod 16)%N.
Proof.
  destruct ch as [[] [] [] [] [] [] [] []]; intros H; try discriminate H;
    by eexists _, _.
Qed.

(** C10.  [listEmails] and [deleteMailbox] put the address into the path
    percent-encoded, as [encodeURIComponent] encodes it: the path segment
    holds only unreserved characters and [%], so no [/], [?] or [#];
    percent-decoding it returns the address; the encoding works byte by
    byte, leaves every unreserved character (the 71 characters
    [A-Z a-z 0-9 - _ . ! ~ * ' ( )]) as it is and writes any other byte as
    [%] and the two upper-case hexadecimal digits of its code, so a space is
    [%20], a slash [%2F] and the at sign [%40].  [getEmail], [deleteEmail] and [getAttachment] put the
    identifiers into the path as they are, so an identifier with a [/] in it
    changes the path: [getEmail] of the identifier [1/attachments/2] requests
    the URL of the attachment [2] of the e-mail [1]. *)
Theorem path_encoding c :
  (forall address options (env : Env (PaginatedEmailList.t string)) s,
      exists call q,
        sent (listEmails c address options env s).2 = sent s ++ [call]
        /\ url call = baseUrl c +:+ "/mailbox/" +:+ Js.encodeURIComponent address +:+ q
        /\ (q = "" \/ exists qs, q = "?" +:+ qs))
  /\ (forall address (env : Env DeletedBody) s,
      exists call,
        sent (deleteMailbox c address env s).2 = sent s ++ [call]
        /\ url call = baseUrl c +:+ "/mailbox/" +:+ Js.encodeURIComponent address)
  /\ (forall address,
      all_chars (fun ch => Js.uri_unreserved ch || Ascii.eqb ch "%")
        (Js.encodeURIComponent address) = true
      /\ Js.mem_char "/" (Js.encodeURIComponent address) = false
      /\ Js.mem_char "?" (Js.encodeURIComponent address) = false
      /\ Js.mem_char "#" (Js.encodeURIComponent address) = false)
  /\ (forall address, percent_decode (Js.encodeURIComponent address) = address)
  /\ (forall a b,
      Js.encodeURIComponent (a +:+ b)
      = Js.encodeURIComponent a +:+ Js.encodeURIComponent b)
  /\ (forall address,
      all_chars Js.uri_unreserved address = true ->
      Js.encodeURIComponent address = address)
  /\ (forall ch, Js.uri_unreserved ch = Js.mem_char ch unreserved_text)
  /\ (forall ch,
      Js.uri_unreserved ch = false ->
      exists h l,
        Js.encodeURIComponent (String ch "") = String "%" (String h (String l ""))
        /\ Js.mem_char h "0123456789ABCDEF" = true
        /\ Js.mem_char l "0123456789ABCDEF" = true
        /\ Js.hex_value h = Some (Js.code ch / 16)%N
        /\ Js.hex_value l = Some (Js.code ch mod 16)%N)
  /\ Js.encodeURIComponent unreserved_text = unreserved_text
  /\ Js.encodeURIComponent reserved_text
     = "a%20b%2Bc%2Fd%3Fe%23f%40g%3Ah%3Bi%3Dj%26k%24l%2Cm%25n%5Bo%5Dp%3Cq%3Er%7Bs%7Dt%7Cu%5Ev%60w"
  /\ (forall emailId (env : Env (EmailDetail.t string)) s,
      exists call,
        sent (getEmail c emailId env s).2 = sent s ++ [call]
        /\ url call = baseUrl c +:+ "/email/" +:+ emailId)
  /\ (forall emailId (env : Env SuccessBody) s,
      exists call,
        sent (deleteEmail c emailId env s).2 = sent s ++ [call]
        /\ url call = baseUrl c +:+ "/email/" +:+ emailId)
  /\ (forall T emailId attachmentId (env : Env T) s,
      exists call,
        sent (getAttachment c emailId attachmentId env s).2 = sent s ++ [call]
        /\ url call
           = baseUrl c +:+ "/email/" +:+ emailId +:+ "/attachments/" +:+ attachmentId)
  /\ (forall T (env : Env (EmailDetail.t string)) (env' : Env T) s,
      sent (getEmail c "1/attachments/2" env s).2
      = sent (getAttachment c "1" "2" env' s).2).
Proof.
  split; [|split; [|split; [|split; [|split; [|split; [|split; [|split; [|split;
    [|split; [|split; [|split; [|split]]]]]]]]]]]].
  - intros address options env s.
    destruct (listEmails_url c address options) as (q & Hu & Hq).
    eexists _, q. split; [apply listEmails_sent|]. by split.
  - intros address env s. eexists. split; [apply deleteMailbox_sent|]. reflexivity.
  - intros address. pose proof (encodeURIComponent_chars address) as H.
    split; [exact H|]. by repeat split; apply (all_chars_mem _ _ _ H).
  - apply percent_decode_encode.
  - apply encodeURIComponent_app.
  - apply encodeURIComponent_unreserved.
  - apply uri_unreserved_table.
  - apply encodeURIComponent_reserved.
  - reflexivity.
  - reflexivity.
  - intros emailId env s. eexists. split; [apply getEmail_sent|]. reflexivity.
  - intros emailId env s. eexists. split; [apply deleteEmail_sent|]. reflexivity.
  - intros T emailId attachmentId env s. eexists. split; [apply getAttachment_sent|].
    cbn [url fetch_init request_url params]. by rewrite ?append_assoc.
  - intros T env env' s. by rewrite getEmail_sent, getAttachment_sent.
Qed.

(** The mailbox [a/b c@vanish.host] is deleted at a URL whose last segment
    holds no slash and no space, and decodes to the address. *)
Lemma path_encoding_witness :
  exists call,
    sent (deleteMailbox anonymous "a/b c@vanish.host" deleted_env start).2 = [call]
    /\ url call = "https://api.vanish.host/mailbox/a%2Fb%20c%40vanish.host"
    /\ percent_decode "a%2Fb%20c%40vanish.host" = "a/b c@vanish.host".
Proof.
  destruct (path_encoding anonymous) as (_ & Hdel & _ & Hdec & _).
  destruct (Hdel "a/b c@vanish.host" deleted_env start) as (call & Hs & Hu).
  exists call. split; [exact Hs|]. split; [rewrite Hu; reflexivity|].
  exact (Hdec "a/b c@vanish.host").
Defined.

(** ** The query string *)

Lemma form_byte_decode c t :
  Js.form_decode (Js.form_byte c +:+ t) = String c (Js.form_decode t).
Proof. destruct c as [[] [] [] [] [] [] [] []]; reflexivity. Qed.

Lemma form_decode_encode s : Js.form_decode (Js.form_encode s) = s.
Proof.
  induction s as [|c s IH]; [done|].
  cbn [Js.form_encode]. by rewrite form_byte_decode, IH.
Qed.

Lemma form_byte_plain c :
  all_chars (fun ch => plain "&" ch && plain "=" ch) (Js.form_byte c) = true.
Proof. destruct c as [[] [] [] [] [] [] [] []]; reflexivity. Qed.

Lemma form_encode_plain s :
  all_chars (fun ch => plain "&" ch && plain "=" ch) (Js.form_encode s) = true.
Proof.
  induction s as [|c s IH]; [done|].
  cbn [Js.form_encode]. by rewrite all_chars_app, form_byte_plain, IH.
Qed.

Lemma all_chars_impl (p q : ascii -> bool) s :
  (forall ch, p ch = true -> q ch = true) -> all_chars p s = true -> all_chars q s = true.
Proof.
  intros Hpq. induction s as [|c s IH]; [done|]. simpl.
  intros [Hc Hs]%andb_true_iff. by rewrite (Hpq c Hc), (IH Hs).
Qed.

Lemma cut_at_app d a b :
  all_chars (plain d) a = true ->
  Js.cut_at d (a +:+ String d b) = (a, b).
Proof.
  induction a as [|c a IH]; intros Ha.
  - simpl. by rewrite Ascii.eqb_refl.
  - simpl in Ha. apply andb_true_iff in Ha as [Hc Ha].
    rewrite append_cons. cbn [Js.cut_at]. unfold plain in Hc.
    destruct (Ascii.eqb c d); [done|]. by rewrite (IH Ha).
Qed.

Lemma split_at_plain d a :
  all_chars (plain d) a = true -> Js.split_at d a = [a].
Proof.
  induction a as [|c a IH]; intros Ha; [done|].
  simpl in Ha. apply andb_true_iff in Ha as [Hc Ha].
  cbn [Js.split_at]. unfold plain in Hc.
  destruct (Ascii.eqb c d); [done|]. by rewrite (IH Ha).
Qed.

Lemma split_at_app d a b :
  all_chars (plain d) a = true ->
  Js.split_at d (a +:+ String d b) = a :: Js.split_at d b.
Proof.
  induction a as [|c a IH]; intros Ha.
  - simpl. by rewrite Ascii.eqb_refl.
  - simpl in Ha. apply andb_true_iff in Ha as [Hc Ha].
    rewrite append_cons. cbn [Js.split_at]. unfold plain in Hc.
    destruct (Ascii.eqb c d); [done|]. by rewrite (IH Ha).
Qed.

Lemma form_encode_no_amp s : all_chars (plain "&") (Js.form_encode s) = true.
Proof.
  apply (all_chars_impl (fun ch => plain "&" ch && plain "=" ch)); [|apply form_encode_plain].
  by intros ch [? _]%andb_true_iff.
Qed.

Lemma form_encode_no_eq s : all_chars (plain "=") (Js.form_encode s) = true.
Proof.
  apply (all_chars_impl (fun ch => plain "&" ch && plain "=" ch)); [|apply form_encode_plain].
  by intros ch [_ ?]%andb_true_iff.
Qed.

Lemma form_pair_plain p : all_chars (plain "&") (Js.form_pair p) = true.
Proof.
  unfold Js.form_pair. rewrite !all_chars_app, !form_encode_no_amp. reflexivity.
Qed.

Lemma form_pair_not_empty p : Js.form_pair p <> "".
Proof.
  unfold Js.form_pair. destruct (Js.form_encode p.1); by rewrite ?append_cons.
Qed.

Lemma form_pair_cut p :
  Js.cut_at "=" (Js.form_pair p) = (Js.form_encode p.1, Js.form_encode p.2).
Proof.
  unfold Js.form_pair. apply (cut_at_app "="). apply form_encode_no_eq.
Qed.

Lemma form_parse_piece p :
  (let '(n, v) := Js.cut_at "=" (Js.form_pair p) in (Js.form_decode n, Js.form_decode v))
  = p.
Proof. rewrite form_pair_cut, !form_decode_encode. by destruct p. Qed.

(** Parsing what [URLSearchParams] wrote gives the pairs back. *)
Lemma form_parse_toString pairs :
  Js.form_parse (Js.URLSearchParams_toString pairs) = pairs.
Proof.
  unfold Js.form_parse. induction pairs as [|p [|q pairs] IH].
  - reflexivity.
  - cbn [Js.URLSearchParams_toString].
    rewrite (split_at_plain "&" _ (form_pair_plain p)).
    rewrite filter_cons_True by apply form_pair_not_empty.
    rewrite filter_nil. cbn [map]. by rewrite form_parse_piece.
  - change (Js.URLSearchParams_toString (p :: q :: pairs))
      with (Js.form_pair p +:+ String "&" (Js.URLSearchParams_toString (q :: pairs))).
    rewrite (split_at_app "&" _ _ (form_pair_plain p)).
    rewrite filter_cons_True by apply form_pair_not_empty.
    cbn [map]. by rewrite form_parse_piece, IH.
Qed.

Lemma filtered_defined (ps : Params) :
  map (fun kv : string * option ParamValue => (kv.1, String_ kv.2))
      (filter (fun kv : string * option ParamValue => kv.2 <> None) ps)
  = defined_params ps.
Proof.
  unfold defined_params. induction ps as [|[k [v|]] ps IH]; [done| |].
  - rewrite filter_cons_True by done. cbn. by rewrite IH.
  - rewrite filter_cons_False by (simpl; tauto). cbn. exact IH.
Qed.

Lemma defined_params_nil (ps : Params) :
  defined_params ps = [] <-> Forall (fun kv => kv.2 = None) ps.
Proof.
  unfold defined_params. induction ps as [|[k [v|]] ps IH]; cbn.
  - split; [constructor|done].
  - split; [done|]. by intros [[=] _]%Forall_cons.
  - rewrite IH. split; [by constructor|]. by intros [_ ?]%Forall_cons.
Qed.

Lemma defined_params_In (ps : Params) k str :
  In (k, str) (defined_params ps) <-> exists v, In (k, Some v) ps /\ str = String_ (Some v).
Proof.
  unfold defined_params. induction ps as [|[k' [v'|]] ps IH]; cbn.
  - split; [done|]. by intros (v & [] & _).
  - rewrite IH. split.
    + intros [[= <- <-]|(v & Hin & ->)]; [exists v'; auto|exists v; auto].
    + intros (v & [[= -> ->]|Hin] & ->); [by left|right; eauto].
  - rewrite IH. split.
    + intros (v & Hin & ->). exists v; auto.
    + intros (v & [[=]|Hin] & ->). eauto.
Qed.

Lemma unique_value {A B} (l : list (A * B)) k a b :
  NoDup (map fst l) -> In (k, a) l -> In (k, b) l -> a = b.
Proof.
  induction l as [|[k' v'] l IH]; [done|].
  cbn [map fst]. intros [Hk' Hl]%NoDup_cons Ha Hb.
  assert (Hkey : forall v, In (k', v) l -> False).
  { intros v Hv. apply Hk', list_elem_of_In, in_map_iff. by exists (k', v). }
  destruct Ha as [Ha|Ha], Hb as [Hb|Hb].
  - congruence.
  - inversion Ha; subst. destruct (Hkey _ Hb).
  - inversion Hb; subst. destruct (Hkey _ Ha).
  - by apply IH.
Qed.

Lemma request_url_query c path (ps : Params) :
  request_url c path (Some ps)
  = if decide (defined_params ps = [])
    then baseUrl c +:+ path
    else baseUrl c +:+ path +:+ "?" +:+ Js.URLSearchParams_toString (defined_params ps).
Proof.
  unfold request_url. pose proof (filtered_defined ps) as Hd.
  destruct (filter _ ps) as [|kv l].
  - simpl in *. rewrite <- Hd. by rewrite decide_True.
  - cbn [length Nat.ltb Nat.leb]. rewrite Hd. rewrite decide_False.
    + by rewrite append_assoc.
    + by rewrite <- Hd.
Qed.

(** C4.  Of the query parameters given to [request], the query string holds
    exactly those whose value is not [undefined]: parsed back, it yields
    their names and values in order, a value 0 as [0] and an empty string as
    an empty value; a name whose value is [undefined] does not occur in it;
    and when every value is [undefined] the URL ends with the path, without
    a [?]. *)
Theorem query_parameters {T} c method path options (ps : Params) (env : Env T) s :
  params options = Some ps ->
  exists call,
    sent (request c method path options env s).2 = sent s ++ [call]
    /\ (Forall (fun kv => kv.2 = None) ps -> url call = baseUrl c +:+ path)
    /\ (~ Forall (fun kv => kv.2 = None) ps ->
        exists qs,
          url call = baseUrl c +:+ path +:+ "?" +:+ qs
          /\ Js.form_parse qs = defined_params ps
          /\ (forall k, In k (map fst (Js.form_parse qs)) <-> exists v, In (k, Some v) ps)
          /\ (forall k, In (k, Some (PNumber 0)) ps -> In (k, "0") (Js.form_parse qs))
          /\ (forall k, In (k, Some (PString "")) ps -> In (k, "") (Js.form_parse qs))
          /\ (NoDup (map fst ps) ->
              forall k, In (k, None) ps -> ~ In k (map fst (Js.form_parse qs)))).
Proof.
  intros Hps. eexists. split; [apply request_sent|].
  cbn [url fetch_init]. rewrite Hps, request_url_query.
  split.
  - intros Hall. by rewrite decide_True by by apply defined_params_nil.
  - intros Hsome. rewrite decide_False by by rewrite defined_params_nil.
    eexists. split; [reflexivity|]. rewrite form_parse_toString.
    assert (Hkeys : forall k, In k (map fst (defined_params ps))
                              <-> exists v, In (k, Some v) ps).
    { intros k. rewrite in_map_iff. split.
      - intros ([k' str] & <- & Hin). apply defined_params_In in Hin as (v & Hv & _).
        by exists v.
      - intros (v & Hv). exists (k, String_ (Some v)). split; [done|].
        apply defined_params_In. by exists v. }
    split; [done|]. split; [exact Hkeys|]. split; [|split].
    + intros k Hin. apply defined_params_In. by exists (PNumber 0).
    + intros k Hin. apply defined_params_In. by exists (PString "").
    + intros Hnd k Hin [v Hv]%Hkeys.
      by pose proof (unique_value ps k _ _ Hnd Hin Hv).
Qed.

Lemma query_parameters_witness :
  params sample_options = Some sample_params
  /\ exists call,
       sent (request anonymous "GET" "/domains" sample_options domains_env start).2 = [call]
       /\ url call = "https://api.vanish.host/domains?limit=0&tag="
       /\ Js.form_parse "limit=0&tag=" = [("limit", "0"); ("tag", "")].
Proof.
  split; [reflexivity|].
  destruct (query_parameters anonymous "GET" "/domains" sample_options sample_params
              domains_env start eq_refl)
    as (call & Hs & _ & Hq).
  destruct Hq as (qs & Hu & Hp & _).
  { intros Hall. by apply Forall_cons in Hall as [[=] _]. }
  exists call. split; [exact Hs|].
  assert (Hcall : call = fetch_init anonymous "GET" "/domains" sample_options).
  { change (sent (request anonymous "GET" "/domains" sample_options domains_env start).2)
      with [fetch_init anonymous "GET" "/domains" sample_options] in Hs.
    by inversion Hs. }
  split; [by rewrite Hcall|reflexivity].
Defined.

(** ** Dates *)

Lemma all_from_spec n z p :
  Js.all_from n z p = true ->
  forall i, (0 <= i < Z.of_nat n)%Z -> p (z + i)%Z = true.
Proof.
  revert z. induction n as [|n IH]; intros z H i Hi; [lia|].
  cbn [Js.all_from] in H. apply andb_true_iff in H as [Hz Hn].
  destruct (decide (i = 0%Z)) as [->|Hne]; [by rewrite Z.add_0_r|].
  replace (z + i)%Z with (z + 1 + (i - 1))%Z by lia. apply IH; [done|lia].
Qed.

(** The calendar conversion is right on every day of an era: checked by
    evaluation on the 146097 days. *)
Lemma era_checked : Js.all_from (Z.to_nat 146097) 0 Js.check_doe = true.
Proof. vm_compute. reflexivity. Qed.

Lemma check_doe_holds doe : (0 <= doe < 146097)%Z -> Js.check_doe doe = true.
Proof.
  intros H. change doe with (0 + doe)%Z.
  apply (all_from_spec _ _ _ era_checked). lia.
Qed.

Lemma is_leap_era a e : Js.is_leap (a + e * 400) = Js.is_leap a.
Proof.
  unfold Js.is_leap.
  replace ((a + e * 400) mod 4)%Z with (a mod 4)%Z
    by (replace (e * 400)%Z with (e * 100 * 4)%Z by lia; by rewrite Z_mod_plus_full).
  replace ((a + e * 400) mod 100)%Z with (a mod 100)%Z
    by (replace (e * 400)%Z with (e * 4 * 100)%Z by lia; by rewrite Z_mod_plus_full).
  by rewrite Z_mod_plus_full.
Qed.

Lemma days_in_month_era a e m : Js.days_in_month (a + e * 400) m = Js.days_in_month a m.
Proof. unfold Js.days_in_month. by rewrite is_leap_era. Qed.

(** The date of a day number is a date of the calendar and has that day
    number; the days of the years 0000 to 9999 have their year in that
    range. *)
Lemma civil_from_days_spec z y m d :
  Js.civil_from_days z = (y, m, d) ->
  Js.days_from_civil y m d = z
  /\ (1 <= m <= 12)%Z /\ (1 <= d <= Js.days_in_month y m)%Z
  /\ ((-719528 <= z <= 2932896)%Z -> (0 <= y <= 9999)%Z).
Proof.
  unfold Js.civil_from_days.
  pose proof (Z.div_mod (z + 719468) 146097 ltac:(lia)) as Hdm.
  pose proof (Z.mod_pos_bound (z + 719468) 146097 ltac:(lia)) as Hmod.
  set (era := ((z + 719468) / 146097)%Z) in *.
  assert (Hdoe : (0 <= z + 719468 - era * 146097 < 146097)%Z) by lia.
  set (doe := (z + 719468 - era * 146097)%Z) in *.
  assert (Hrel : doe = (z + 719468 - era * 146097)%Z) by reflexivity.
  clearbody doe. clearbody era. clear Hdm Hmod.
  assert (Hera : (-719528 <= z <= 2932896)%Z -> (-1 <= era <= 24)%Z) by lia.
  pose proof (check_doe_holds doe Hdoe) as Hc. unfold Js.check_doe in Hc.
  destruct (Js.civil_of_doe doe) as [[yoe m'] d'].
  intros [= <- <- <-].
  repeat (apply andb_true_iff in Hc as [Hc ?]).
  assert (Hy : (0 <= yoe <= 399)%Z) by lia.
  assert (Hm : (1 <= m' <= 12)%Z) by lia.
  set (adj := (if (m' <=? 2)%Z then 1 else 0)%Z) in *.
  replace (yoe + era * 400 + adj)%Z with (yoe + adj + era * 400)%Z by lia.
  rewrite days_in_month_era.
  split; [|split; [lia|split; [lia|]]].
  - unfold Js.days_from_civil.
    replace (if (m' <=? 2)%Z then (yoe + adj + era * 400 - 1)%Z
             else (yoe + adj + era * 400)%Z) with (yoe + era * 400)%Z
      by (subst adj; destruct (m' <=? 2)%Z; lia).
    rewrite Z.div_add by lia. rewrite (Z.div_small yoe 400) by lia.
    replace (yoe + era * 400 - (0 + era) * 400)%Z with yoe by lia. lia.
  - intros Hz. specialize (Hera Hz). subst adj.
    destruct (doe <=? 146036)%Z eqn:Hle; destruct (m' <=? 2)%Z; lia.
Qed.

Lemma digit_char_spec x :
  (0 <= x < 10)%Z ->
  Js.is_digit (ascii_of_N (48 + Z.to_N x)) = true
  /\ Z.of_N (Js.code (ascii_of_N (48 + Z.to_N x)) - 48) = x.
Proof.
  intros H.
  assert (x = 0 \/ x = 1 \/ x = 2 \/ x = 3 \/ x = 4 \/ x = 5 \/ x = 6 \/ x = 7
          \/ x = 8 \/ x = 9)%Z as Hx by lia.
  repeat (destruct Hx as [->|Hx]; [by split|]). by subst.
Qed.

(** Reading back the digits that were written. *)
Lemma read_write_digits n m acc v rest :
  (0 <= v < 10 ^ Z.of_nat n)%Z ->
  Js.read_digits (n + m) acc (Js.write_digits n v rest)
  = Js.read_digits m (acc * 10 ^ Z.of_nat n + v) rest.
Proof.
  revert m acc v rest. induction n as [|n IH]; intros m acc v rest Hv.
  - simpl. f_equal. change (10 ^ Z.of_nat 0)%Z with 1%Z in *. lia.
  - rewrite Nat2Z.inj_succ, Z.pow_succ_r in Hv by lia.
    cbn [Js.write_digits]. replace (S n + m)%nat with (n + S m)%nat by lia.
    rewrite IH by (split; [apply Z.div_pos; lia|apply Z.div_lt_upper_bound; lia]).
    destruct (digit_char_spec (v mod 10) ltac:(apply Z.mod_pos_bound; lia)) as [Hd Hc].
    cbn [Js.read_digits]. rewrite Hd, Hc. f_equal.
    rewrite Nat2Z.inj_succ, Z.pow_succ_r by lia.
    pose proof (Z.div_mod v 10 ltac:(lia)). lia.
Qed.

Lemma read_written n v rest :
  (0 <= v < 10 ^ Z.of_nat n)%Z ->
  Js.read_digits n 0 (Js.write_digits n v rest) = Some (v, rest).
Proof.
  intros Hv. rewrite <- (Nat.add_0_r n) at 1. rewrite read_write_digits by done.
  cbn [Js.read_digits]. by rewrite Z.mul_0_l, Z.add_0_l.
Qed.

Lemma read_char_same c rest : Js.read_char c (String c rest) = Some rest.
Proof. simpl. by rewrite Ascii.eqb_refl. Qed.

(** The date of a day of the years 0000 to 9999, read back. *)
Lemma parse_written_date day rest :
  (-719528 <= day <= 2932896)%Z ->
  Js.parse_iso (Js.write_date day rest) = Js.parse_day_time day rest.
Proof.
  intros Hday. unfold Js.write_date.
  destruct (Js.civil_from_days day) as [[y m] d] eqn:Hc.
  apply civil_from_days_spec in Hc as (Hback & Hm & Hd & Hy).
  specialize (Hy Hday).
  assert (Hdmax : (Js.days_in_month y m <= 31)%Z).
  { unfold Js.days_in_month. repeat destruct (_ : bool); lia. }
  unfold Js.parse_iso.
  rewrite read_written by (simpl; lia). cbn [mbind option_bind]. rewrite read_char_same.
  cbn [mbind option_bind].
  rewrite read_written by (simpl; lia). cbn [mbind option_bind]. rewrite read_char_same.
  cbn [mbind option_bind].
  rewrite read_written by (simpl; lia). cbn [mbind option_bind].
  replace (Js.valid_date y m d) with true.
  - by rewrite Hback.
  - symmetry. unfold Js.valid_date.
    repeat (apply andb_true_iff; split); apply Z.leb_le; lia.
Qed.

(** The offset that was written, read back. *)
Lemma parse_written_offset o :
  Js.valid_offset o = true ->
  Js.parse_offset (Js.write_offset o) = Some (Js.offset_ms o).
Proof.
  destruct o as [|h m|h m]; [done| |];
    (intros Hv; unfold Js.valid_offset in Hv;
     repeat (apply andb_true_iff in Hv as [Hv ?]);
     cbn [Js.write_offset Js.parse_offset Js.offset_ms]; unfold Js.parse_hours_minutes;
     rewrite read_written by (simpl; lia); cbn [mbind option_bind];
     rewrite read_char_same; cbn [mbind option_bind];
     rewrite read_written by (simpl; lia); cbn [mbind option_bind];
     replace ((h <=? 23)%Z) with true by lia;
     replace ((m <=? 59)%Z) with true by lia;
     done).
Qed.

(** The time of day that was written, read back: a form of time writes the
    times that are a multiple of its unit, and the offset that follows
    begins with none of the characters that continue a time. *)
Lemma parse_written_time f o ms :
  (0 <= ms < 86400000)%Z ->
  (ms mod Js.unit_ms f = 0)%Z ->
  Js.parse_time (Js.write_time f ms (Js.write_offset o)) = Some (ms, Js.write_offset o).
Proof.
  intros Hms Hunit. unfold Js.write_time, Js.parse_time.
  pose proof (Z.mod_pos_bound (ms / 60000) 60 ltac:(lia)) as Hmi.
  pose proof (Z.mod_pos_bound (ms / 1000) 60 ltac:(lia)) as Hsec.
  pose proof (Z.mod_pos_bound ms 1000 ltac:(lia)) as Hmsec.
  assert (Hh : (0 <= ms / 3600000 <= 23)%Z)
    by (split; [apply Z.div_pos; lia|apply Z.lt_succ_r, Z.div_lt_upper_bound; lia]).
  pose proof (Z.div_mod ms 1000 ltac:(lia)) as E1.
  pose proof (Z.div_mod (ms / 1000) 60 ltac:(lia)) as E2.
  pose proof (Z.div_mod (ms / 60000) 60 ltac:(lia)) as E3.
  replace (ms / 60000)%Z with (ms / 1000 / 60)%Z in *
    by (rewrite Z.div_div by lia; done).
  replace (ms / 3600000)%Z with (ms / 1000 / 60 / 60)%Z in *
    by (rewrite !Z.div_div by lia; done).
  rewrite read_written by (simpl; lia). cbn [mbind option_bind]. rewrite read_char_same.
  cbn [mbind option_bind].
  rewrite read_written by (simpl; lia). cbn [mbind option_bind].
  assert (Hvalid : forall sec, (0 <= sec <= 59)%Z ->
            Js.valid_time (ms / 1000 / 60 / 60) (ms / 1000 / 60 mod 60) sec = true).
  { intros sec Hs. unfold Js.valid_time.
    repeat (apply andb_true_iff; split); apply Z.leb_le; lia. }
  destruct f; cbn [Js.unit_ms] in Hunit.
  - assert (Hq : Js.parse_seconds (Js.write_offset o) = Some (0, 0, Js.write_offset o)%Z)
      by (by destruct o).
    rewrite Hq. cbn [mbind option_bind]. rewrite Hvalid by lia. do 2 f_equal.
    pose proof (Z.div_mod ms 60000 ltac:(lia)) as E4.
    replace (ms / 60000)%Z with (ms / 1000 / 60)%Z in E4
      by (rewrite Z.div_div by lia; done).
    lia.
  - cbn [Js.parse_seconds]. rewrite read_written by (simpl; lia).
    cbn [mbind option_bind].
    assert (Hq : match Js.write_offset o with
                 | String "." s3 =>
                     '(ms0, s4) ← Js.read_digits 3 0 s3;
                     Some (ms / 1000 mod 60, ms0, s4)%Z
                 | _ => Some (ms / 1000 mod 60, 0, Js.write_offset o)%Z
                 end = Some (ms / 1000 mod 60, 0, Js.write_offset o)%Z)
      by (by destruct o).
    rewrite Hq. cbn [mbind option_bind]. rewrite Hvalid by lia. do 2 f_equal. lia.
  - cbn [Js.parse_seconds]. rewrite read_written by (simpl; lia).
    cbn [mbind option_bind]. rewrite read_written by (simpl; lia).
    cbn [mbind option_bind]. rewrite Hvalid by lia. do 2 f_equal. lia.
Qed.

(** The time of day of a local time is a multiple of the unit when the
    instant is, the offset being of whole minutes. *)
Lemma time_of_day_unit f o t :
  (t mod Js.unit_ms f = 0)%Z ->
  (((t + Js.offset_ms o) mod Js.msPerDay) mod Js.unit_ms f = 0)%Z.
Proof.
  intros Ht. unfold Js.msPerDay.
  pose proof (Z.div_mod (t + Js.offset_ms o) 86400000 ltac:(lia)) as Hday.
  assert (Hu : (0 < Js.unit_ms f)%Z) by (by destruct f).
  pose proof (Z.div_mod t (Js.unit_ms f) ltac:(lia)) as Hq. rewrite Ht in Hq.
  set (q := (t / Js.unit_ms f)%Z) in *. set (k := ((t + Js.offset_ms o) / 86400000)%Z) in *.
  set (r := ((t + Js.offset_ms o) mod 86400000)%Z) in *.
  assert (Hoff : exists j, Js.offset_ms o = (j * 60000)%Z).
  { destruct o as [|h m|h m]; cbn [Js.offset_ms];
      [by exists 0%Z|by eexists|exists (- (h * 60 + m))%Z; lia]. }
  destruct Hoff as (j & Hj). clearbody q k r.
  destruct f; cbn [Js.unit_ms] in *.
  - replace r with ((q + j - 1440 * k) * 60000)%Z by lia. apply Z_mod_mult.
  - replace r with ((q + 60 * j - 86400 * k) * 1000)%Z by lia. apply Z_mod_mult.
  - apply Z.mod_1_r.
Qed.

(** A string of the date-time format, written for an instant whose local
    date is of the years 0000 to 9999, is read as that instant. *)
Lemma parse_iso_string f o t :
  Js.valid_offset o = true ->
  (Js.first_ms <= t + Js.offset_ms o <= Js.last_ms)%Z ->
  (t mod Js.unit_ms f = 0)%Z ->
  Js.parse_iso (Js.iso_string f o t) = Some t.
Proof.
  unfold Js.first_ms, Js.last_ms. intros Ho Ht Hu. unfold Js.iso_string.
  pose proof (time_of_day_unit f o t Hu) as Hunit.
  pose proof (Z.div_mod (t + Js.offset_ms o) Js.msPerDay ltac:(done)) as Hdm.
  pose proof (Z.mod_pos_bound (t + Js.offset_ms o) Js.msPerDay ltac:(done)) as Hms.
  set (day := ((t + Js.offset_ms o) / Js.msPerDay)%Z) in *.
  set (ms := ((t + Js.offset_ms o) mod Js.msPerDay)%Z) in *.
  unfold Js.msPerDay in Hdm, Hms.
  rewrite parse_written_date by lia. cbn [Js.parse_day_time].
  rewrite parse_written_time by done. cbn [mbind option_bind].
  rewrite parse_written_offset by done. cbn [mbind option_bind].
  f_equal. unfold Js.msPerDay. lia.
Qed.

(** A date alone is read as the start of its day, UTC. *)
Lemma parse_iso_date t :
  (Js.first_ms <= t <= Js.last_ms)%Z ->
  (t mod Js.msPerDay = 0)%Z ->
  Js.parse_iso (Js.iso_date t) = Some t.
Proof.
  unfold Js.first_ms, Js.last_ms. intros Ht Hu. unfold Js.iso_date.
  pose proof (Z.div_mod t Js.msPerDay ltac:(done)) as Hdm. rewrite Hu in Hdm.
  set (day := (t / Js.msPerDay)%Z) in *. unfold Js.msPerDay in Hdm.
  rewrite parse_written_date by lia. cbn [Js.parse_day_time].
  f_equal. unfold Js.msPerDay. lia.
Qed.

(** [toISOString] writes the instant to the millisecond at the offset [Z]. *)
Lemma toISOString_iso_string t :
  Js.toISOString t = Js.iso_string Js.Millis Js.UTC t.
Proof.
  unfold Js.toISOString, Js.iso_string, Js.write_date, Js.write_time.
  cbn [Js.offset_ms Js.write_offset]. rewrite Z.add_0_r.
  by destruct (Js.civil_from_days (t / Js.msPerDay)) as [[y m] d].
Qed.

(** Parsing the ISO string of a time value of the years 0000 to 9999 gives
    the time value. *)
Lemma parse_toISOString t :
  (Js.first_ms <= t <= Js.last_ms)%Z ->
  Js.parse_iso (Js.toISOString t) = Some t.
Proof.
  intros Ht. rewrite toISOString_iso_string.
  apply parse_iso_string; [done|cbn [Js.offset_ms]; lia|apply Z.mod_1_r].
Qed.

(** A string that [Js.parse_iso] reads has its instant whatever the platform
    is; any other string has the instant the platform reads, if it is a time
    value. *)
Lemma new_Date_read other s t :
  Js.parse_iso s = Some t -> Js.new_Date other (Js.OfString s) = Js.MkDate (Some t).
Proof. intros H. cbn [Js.new_Date]. unfold Js.Date_parse. by rewrite H. Qed.

Lemma new_Date_other other s :
  Js.parse_iso s = None ->
  Js.new_Date other (Js.OfString s) = Js.MkDate (other s ≫= Js.TimeClip).
Proof. intros H. cbn [Js.new_Date]. unfold Js.Date_parse. by rewrite H. Qed.

(** *** Reading is the inverse of writing

    What [Js.parse_iso] reads is a string that was written for the instant it
    returns: the parser accepts nothing else. *)

(** The calendar conversion is right on every date of an era: checked by
    evaluation on the days 1 to 31 of the months of its 400 years. *)
Lemma era_dates_checked : Js.all_from 400 0 Js.check_year = true.
Proof. vm_compute. reflexivity. Qed.

Lemma check_civil_holds yoe m d :
  (0 <= yoe <= 399)%Z -> (1 <= m <= 12)%Z -> (1 <= d <= 31)%Z ->
  Js.check_civil yoe m d = true.
Proof.
  intros Hy Hm Hd.
  pose proof (all_from_spec _ _ _ era_dates_checked yoe ltac:(simpl; lia)) as H1.
  rewrite Z.add_0_l in H1. unfold Js.check_year in H1.
  pose proof (all_from_spec _ _ _ H1 (m - 1)%Z ltac:(simpl; lia)) as H2.
  replace (1 + (m - 1))%Z with m in H2 by lia. unfold Js.check_month in H2.
  pose proof (all_from_spec _ _ _ H2 (d - 1)%Z ltac:(simpl; lia)) as H3.
  by replace (1 + (d - 1))%Z with d in H3 by lia.
Qed.

Lemma days_in_month_max y m : (Js.days_in_month y m <= 31)%Z.
Proof. unfold Js.days_in_month. repeat destruct (_ : bool); lia. Qed.

(** The day number of a date of the calendar has that date, and the dates of
    the years 0000 to 9999 have their day numbers in the range of those
    years. *)
Lemma days_from_civil_spec y m d :
  Js.valid_date y m d = true ->
  Js.civil_from_days (Js.days_from_civil y m d) = (y, m, d)
  /\ ((0 <= y <= 9999)%Z -> (-719528 <= Js.days_from_civil y m d <= 2932896)%Z).
Proof.
  unfold Js.valid_date. intros Hv. repeat (apply andb_true_iff in Hv as [Hv ?]).
  assert (Hm : (1 <= m <= 12)%Z) by lia.
  assert (Hd : (1 <= d <= Js.days_in_month y m)%Z) by lia.
  pose proof (days_in_month_max y m) as Hmax.
  unfold Js.days_from_civil, Js.civil_from_days.
  set (adj := (if (m <=? 2)%Z then 1 else 0)%Z).
  set (y' := (if (m <=? 2)%Z then y - 1 else y)%Z).
  assert (Hy' : y = (y' + adj)%Z) by (subst y' adj; destruct (m <=? 2)%Z; lia).
  assert (Hadj : (0 <= adj <= 1)%Z) by (subst adj; destruct (m <=? 2)%Z; lia).
  pose proof (Z.div_mod y' 400 ltac:(lia)) as Hdm.
  pose proof (Z.mod_pos_bound y' 400 ltac:(lia)) as Hmod.
  set (era := (y' / 400)%Z) in *.
  set (yoe := (y' - era * 400)%Z).
  assert (Hyoe : (0 <= yoe <= 399)%Z) by (subst yoe; lia).
  assert (Hrel : y = (yoe + adj + era * 400)%Z) by (subst yoe; lia).
  pose proof (check_civil_holds yoe m d Hyoe Hm ltac:(lia)) as Hc.
  unfold Js.check_civil in Hc. fold adj in Hc.
  rewrite Hrel, days_in_month_era in Hd.
  replace ((d <=? Js.days_in_month (yoe + adj) m)%Z) with true in Hc by lia.
  set (doe := Js.doe_of_civil yoe m d) in *.
  destruct (Js.civil_of_doe doe) as [[yoe' m'] d'] eqn:Hciv.
  repeat (apply andb_true_iff in Hc as [Hc ?]).
  assert (Hdoe : (0 <= doe < 146097)%Z) by lia.
  assert (yoe' = yoe) by lia. assert (m' = m) by lia. assert (d' = d) by lia.
  subst yoe' m' d'.
  pose proof (check_doe_holds doe Hdoe) as Hchk. unfold Js.check_doe in Hchk.
  rewrite Hciv in Hchk. fold adj in Hchk. apply andb_true_iff in Hchk as [_ Hchk].
  clearbody doe. clearbody yoe. clearbody era. clear Hdm Hmod. split.
  - replace (era * 146097 + doe - 719468 + 719468)%Z with (doe + era * 146097)%Z by lia.
    rewrite Z.div_add by lia. rewrite (Z.div_small doe 146097) by lia.
    replace (doe + era * 146097 - (0 + era) * 146097)%Z with doe by lia.
    rewrite Hciv. fold adj. by replace (yoe + (0 + era) * 400 + adj)%Z with y by lia.
  - intros Hy. destruct (doe <=? 146036)%Z eqn:Hle; lia.
Qed.

Lemma civil_from_days_from_civil y m d :
  Js.valid_date y m d = true ->
  Js.civil_from_days (Js.days_from_civil y m d) = (y, m, d).
Proof. intros Hv. by destruct (days_from_civil_spec y m d Hv). Qed.

Lemma days_from_civil_range y m d :
  (0 <= y <= 9999)%Z -> Js.valid_date y m d = true ->
  (-719528 <= Js.days_from_civil y m d <= 2932896)%Z.
Proof. intros Hy Hv. by apply (days_from_civil_spec y m d Hv). Qed.

(** The digit characters are the characters that [write_digits] writes. *)
Lemma digit_char_inv c :
  Js.is_digit c = true ->
  (0 <= Z.of_N (Js.code c - 48) < 10)%Z
  /\ ascii_of_N (48 + Z.to_N (Z.of_N (Js.code c - 48))) = c.
Proof. destruct c as [[] [] [] [] [] [] [] []]; intros H; try discriminate H; by split. Qed.

(** A digit in front of digits that were written is one more digit
    written. *)
Lemma write_digits_front n dg w rest :
  (0 <= dg < 10)%Z -> (0 <= w < 10 ^ Z.of_nat n)%Z ->
  String (ascii_of_N (48 + Z.to_N dg)) (Js.write_digits n w rest)
  = Js.write_digits (S n) (dg * 10 ^ Z.of_nat n + w) rest.
Proof.
  revert w rest. induction n as [|n IH]; intros w rest Hdg Hw.
  - change (10 ^ Z.of_nat 0)%Z with 1%Z in *. assert (w = 0%Z) as -> by lia.
    cbn [Js.write_digits]. replace (dg * 1 + 0)%Z with dg by lia.
    by rewrite Z.mod_small by lia.
  - rewrite Nat2Z.inj_succ, Z.pow_succ_r in * by lia.
    set (P := (10 ^ Z.of_nat n)%Z) in *.
    assert (HP : (0 < P)%Z) by (subst P; apply Z.pow_pos_nonneg; lia).
    pose proof (Z.div_mod w 10 ltac:(lia)) as Hdm.
    pose proof (Z.mod_pos_bound w 10 ltac:(lia)) as Hmod.
    change (Js.write_digits (S n) w rest)
      with (Js.write_digits n (w / 10) (String (ascii_of_N (48 + Z.to_N (w mod 10))) rest)).
    rewrite IH
      by first [exact Hdg|split; [apply Z.div_pos; lia|apply Z.div_lt_upper_bound; lia]].
    change (Js.write_digits (S (S n)) (dg * (10 * P) + w) rest)
      with (Js.write_digits (S n) ((dg * (10 * P) + w) / 10)
              (String (ascii_of_N (48 + Z.to_N ((dg * (10 * P) + w) mod 10))) rest)).
    replace (dg * (10 * P) + w)%Z with (w + (dg * P) * 10)%Z by lia.
    rewrite Z.div_add, Z_mod_plus_full by lia.
    by replace (w / 10 + dg * P)%Z with (dg * P + w / 10)%Z by lia.
Qed.

(** Digits that are read were written. *)
Lemma read_digits_inv n acc s v rest :
  Js.read_digits n acc s = Some (v, rest) ->
  exists w, (0 <= w < 10 ^ Z.of_nat n)%Z
    /\ v = (acc * 10 ^ Z.of_nat n + w)%Z
    /\ s = Js.write_digits n w rest.
Proof.
  revert acc s. induction n as [|n IH]; intros acc s H.
  - simpl in H. injection H as <- <-. exists 0%Z.
    change (10 ^ Z.of_nat 0)%Z with 1%Z. split; [lia|]. split; [lia|done].
  - destruct s as [|c s]; [done|]. cbn [Js.read_digits] in H.
    destruct (Js.is_digit c) eqn:Hc; [|done].
    destruct (digit_char_inv c Hc) as [Hdg Hch].
    destruct (IH _ _ H) as (w & Hw & -> & ->).
    rewrite Nat2Z.inj_succ, Z.pow_succ_r by lia.
    set (P := (10 ^ Z.of_nat n)%Z) in *.
    assert (HP : (0 < P)%Z) by (subst P; apply Z.pow_pos_nonneg; lia).
    exists (Z.of_N (Js.code c - 48) * P + w)%Z.
    split; [nia|]. split; [lia|].
    rewrite <- write_digits_front by done. by rewrite Hch.
Qed.

Lemma read_digits_field n s v rest :
  Js.read_digits n 0 s = Some (v, rest) ->
  (0 <= v < 10 ^ Z.of_nat n)%Z /\ s = Js.write_digits n v rest.
Proof.
  intros (w & Hw & -> & ->)%read_digits_inv. by rewrite Z.mul_0_l, Z.add_0_l.
Qed.

Lemma read_char_inv c s rest : Js.read_char c s = Some rest -> s = String c rest.
Proof.
  destruct s as [|d s]; [done|]. simpl.
  destruct (Ascii.eqb_spec c d) as [->|]; [|done]. by intros [= ->].
Qed.

(** An offset that is read was written. *)
Lemma parse_hours_minutes_inv s v :
  Js.parse_hours_minutes s = Some v ->
  exists h m, (0 <= h <= 23)%Z /\ (0 <= m <= 59)%Z /\ v = (h * 60 + m)%Z
    /\ s = Js.write_digits 2 h (String ":" (Js.write_digits 2 m "")).
Proof.
  unfold Js.parse_hours_minutes. intros H.
  destruct (Js.read_digits 2 0 s) as [[h s1]|] eqn:H1; [|done].
  cbn [mbind option_bind] in H.
  destruct (Js.read_char ":" s1) as [s2|] eqn:H2; [|done].
  cbn [mbind option_bind] in H.
  destruct (Js.read_digits 2 0 s2) as [[m s3]|] eqn:H3; [|done].
  cbn [mbind option_bind] in H.
  destruct (String.eqb_spec s3 "") as [->|]; [|done]. cbn [andb] in H.
  destruct (h <=? 23)%Z eqn:Hh; [|done]. destruct (m <=? 59)%Z eqn:Hm; [|done].
  injection H as <-.
  apply read_digits_field in H1 as [Hh' ->]. apply read_char_inv in H2 as ->.
  apply read_digits_field in H3 as [Hm' ->].
  exists h, m. repeat split; lia || done.
Qed.

Lemma parse_offset_inv s off :
  Js.parse_offset s = Some off ->
  exists o, Js.valid_offset o = true /\ off = Js.offset_ms o /\ s = Js.write_offset o.
Proof.
  destruct s as [|c s]; [done|].
  destruct (Ascii.eqb_spec c "Z") as [->|HZ].
  { destruct s; [|done]. intros [= <-]. by exists Js.UTC. }
  destruct (Ascii.eqb_spec c "+") as [->|HP].
  { cbn [Js.parse_offset]. intros H.
    destruct (Js.parse_hours_minutes s) as [v|] eqn:Hv; [|done].
    injection H as <-.
    apply parse_hours_minutes_inv in Hv as (h & m & Hh & Hm & -> & ->).
    exists (Js.East h m). split; [|done]. unfold Js.valid_offset.
    repeat (apply andb_true_iff; split); apply Z.leb_le; lia. }
  destruct (Ascii.eqb_spec c "-") as [->|HM].
  { cbn [Js.parse_offset]. intros H.
    destruct (Js.parse_hours_minutes s) as [v|] eqn:Hv; [|done].
    injection H as <-.
    apply parse_hours_minutes_inv in Hv as (h & m & Hh & Hm & -> & ->).
    exists (Js.West h m). split; [|done]. unfold Js.valid_offset.
    repeat (apply andb_true_iff; split); apply Z.leb_le; lia. }
  intros H. exfalso.
  destruct c as [[] [] [] [] [] [] [] []]; try discriminate H; congruence.
Qed.

(** A time of day that is read was written, in the form that its syntax
    shows. *)
Lemma parse_seconds_inv s sec ms rest :
  Js.parse_seconds s = Some (sec, ms, rest) ->
  (sec = 0%Z /\ ms = 0%Z /\ s = rest)
  \/ ((0 <= sec < 100)%Z /\ ms = 0%Z /\ s = String ":" (Js.write_digits 2 sec rest))
  \/ ((0 <= sec < 100)%Z /\ (0 <= ms < 1000)%Z
      /\ s = String ":" (Js.write_digits 2 sec (String "." (Js.write_digits 3 ms rest)))).
Proof.
  destruct s as [|c s]; [intros [= <- <- <-]; by left|].
  destruct (Ascii.eqb_spec c ":") as [->|Hc].
  - cbn [Js.parse_seconds]. intros H.
    destruct (Js.read_digits 2 0 s) as [[sec' s2]|] eqn:H1; [|done].
    cbn [mbind option_bind] in H. apply read_digits_field in H1 as [Hsec ->].
    destruct s2 as [|d s3]; [injection H as <- <- <-; right; left; by simpl in *|].
    destruct (Ascii.eqb_spec d ".") as [->|Hd].
    + destruct (Js.read_digits 3 0 s3) as [[ms' s4]|] eqn:H2; [|done].
      cbn [mbind option_bind] in H. injection H as <- <- <-.
      apply read_digits_field in H2 as [Hms ->]. right. right. by simpl in *.
    + right. left.
      assert (H' : Some (sec', 0%Z, String d s3) = Some (sec, ms, rest)).
      { destruct d as [[] [] [] [] [] [] [] []]; try exact H; congruence. }
      injection H' as <- <- <-. by simpl in *.
  - intros H. left.
    assert (H' : Some (0%Z, 0%Z, String c s) = Some (sec, ms, rest)).
    { destruct c as [[] [] [] [] [] [] [] []]; try exact H; congruence. }
    by injection H' as <- <- <-.
Qed.

Lemma parse_time_inv s ms rest :
  Js.parse_time s = Some (ms, rest) ->
  exists f, (0 <= ms < 86400000)%Z /\ (ms mod Js.unit_ms f = 0)%Z
    /\ s = Js.write_time f ms rest.
Proof.
  unfold Js.parse_time. intros H.
  destruct (Js.read_digits 2 0 s) as [[h s1]|] eqn:H1; [|done].
  cbn [mbind option_bind] in H.
  destruct (Js.read_char ":" s1) as [s2|] eqn:H2; [|done].
  cbn [mbind option_bind] in H.
  destruct (Js.read_digits 2 0 s2) as [[mi s3]|] eqn:H3; [|done].
  cbn [mbind option_bind] in H.
  destruct (Js.parse_seconds s3) as [[[sec msec] s4]|] eqn:H4; [|done].
  cbn [mbind option_bind] in H.
  destruct (Js.valid_time h mi sec) eqn:Hv; [|done]. injection H as <- <-.
  unfold Js.valid_time in Hv. repeat (apply andb_true_iff in Hv as [Hv ?]).
  apply read_digits_field in H1 as [Hh ->]. apply read_char_inv in H2 as ->.
  apply read_digits_field in H3 as [Hmi ->]. simpl in Hh, Hmi.
  assert (Hfields : forall sec msec, (0 <= sec <= 59)%Z -> (0 <= msec < 1000)%Z ->
            let ms := (h * 3600000 + mi * 60000 + sec * 1000 + msec)%Z in
            (0 <= ms < 86400000)%Z /\ (ms / 3600000 = h)%Z /\ (ms / 60000 mod 60 = mi)%Z
            /\ (ms / 1000 mod 60 = sec)%Z /\ (ms mod 1000 = msec)%Z).
  { intros sc msc Hsc Hmsc ms.
    assert (E0 : (ms mod 1000 = msc)%Z).
    { subst ms. replace (h * 3600000 + mi * 60000 + sc * 1000 + msc)%Z
        with (msc + (h * 3600 + mi * 60 + sc) * 1000)%Z by lia.
      rewrite Z_mod_plus_full. apply Z.mod_small. lia. }
    assert (E1 : (ms / 1000 = h * 3600 + mi * 60 + sc)%Z).
    { subst ms. replace (h * 3600000 + mi * 60000 + sc * 1000 + msc)%Z
        with (msc + (h * 3600 + mi * 60 + sc) * 1000)%Z by lia.
      rewrite Z.div_add by lia. rewrite Z.div_small by lia. lia. }
    assert (E2 : (ms / 60000 = h * 60 + mi)%Z).
    { replace (ms / 60000)%Z with (ms / 1000 / 60)%Z by (rewrite Z.div_div by lia; done).
      rewrite E1. replace (h * 3600 + mi * 60 + sc)%Z with (sc + (h * 60 + mi) * 60)%Z by lia.
      rewrite Z.div_add by lia. rewrite Z.div_small by lia. lia. }
    assert (E3 : (ms / 3600000 = h)%Z).
    { replace (ms / 3600000)%Z with (ms / 60000 / 60)%Z by (rewrite Z.div_div by lia; done).
      rewrite E2. replace (h * 60 + mi)%Z with (mi + h * 60)%Z by lia.
      rewrite Z.div_add by lia. rewrite Z.div_small by lia. lia. }
    split; [subst ms; lia|]. split; [done|]. split.
    { rewrite E2. replace (h * 60 + mi)%Z with (mi + h * 60)%Z by lia.
      rewrite Z_mod_plus_full. apply Z.mod_small. lia. }
    split; [|done].
    rewrite E1. replace (h * 3600 + mi * 60 + sc)%Z with (sc + (h * 60 + mi) * 60)%Z by lia.
    rewrite Z_mod_plus_full. apply Z.mod_small. lia. }
  apply parse_seconds_inv in H4
    as [(-> & -> & ->)|[(Hsec & -> & ->)|(Hsec & Hmsec & ->)]].
  - exists Js.Minutes. destruct (Hfields 0 0 ltac:(lia) ltac:(lia))%Z
      as (Hr & E3 & E2 & E1 & E0).
    split; [done|]. split.
    + cbn [Js.unit_ms].
      replace (h * 3600000 + mi * 60000 + 0 * 1000 + 0)%Z
        with ((h * 60 + mi) * 60000)%Z by lia. apply Z_mod_mult.
    + unfold Js.write_time. by rewrite E3, E2.
  - exists Js.Seconds. destruct (Hfields sec 0 ltac:(lia) ltac:(lia))%Z
      as (Hr & E3 & E2 & E1 & E0).
    split; [done|]. split; [exact E0|].
    unfold Js.write_time. by rewrite E3, E2, E1.
  - exists Js.Millis. destruct (Hfields sec msec ltac:(lia) ltac:(lia))%Z
      as (Hr & E3 & E2 & E1 & E0).
    split; [done|]. split; [apply Z.mod_1_r|].
    unfold Js.write_time. by rewrite E3, E2, E1, E0.
Qed.

(** What [Js.parse_iso] reads is a date alone, written for the start of a
    day, or a date and time written for an instant. *)
Lemma parse_iso_inv s t :
  Js.parse_iso s = Some t ->
  ((Js.first_ms <= t <= Js.last_ms)%Z /\ (t mod Js.msPerDay = 0)%Z /\ s = Js.iso_date t)
  \/ exists f o,
       Js.valid_offset o = true
       /\ (Js.first_ms <= t + Js.offset_ms o <= Js.last_ms)%Z
       /\ (t mod Js.unit_ms f = 0)%Z
       /\ s = Js.iso_string f o t.
Proof.
  unfold Js.parse_iso. intros H.
  destruct (Js.read_digits 4 0 s) as [[y s1]|] eqn:H1; [|done].
  cbn [mbind option_bind] in H.
  destruct (Js.read_char "-" s1) as [s2|] eqn:H2; [|done].
  cbn [mbind option_bind] in H.
  destruct (Js.read_digits 2 0 s2) as [[m s3]|] eqn:H3; [|done].
  cbn [mbind option_bind] in H.
  destruct (Js.read_char "-" s3) as [s4|] eqn:H4; [|done].
  cbn [mbind option_bind] in H.
  destruct (Js.read_digits 2 0 s4) as [[d s5]|] eqn:H5; [|done].
  cbn [mbind option_bind] in H.
  destruct (Js.valid_date y m d) eqn:Hv; [|done].
  apply read_digits_field in H1 as [Hy ->]. apply read_char_inv in H2 as ->.
  apply read_digits_field in H3 as [Hm ->]. apply read_char_inv in H4 as ->.
  apply read_digits_field in H5 as [Hd ->]. simpl in Hy, Hm, Hd.
  pose proof (civil_from_days_from_civil y m d Hv) as Hback.
  pose proof (days_from_civil_range y m d ltac:(lia) Hv) as Hrange.
  set (day := Js.days_from_civil y m d) in *. clearbody day.
  unfold Js.first_ms, Js.last_ms.
  destruct s5 as [|c s5].
  - injection H as <-. left.
    assert (Hq : (day * Js.msPerDay / Js.msPerDay = day)%Z) by (by apply Z.div_mul).
    split; [unfold Js.msPerDay; lia|]. split; [by apply Z_mod_mult|].
    unfold Js.iso_date, Js.write_date. by rewrite Hq, Hback.
  - destruct (Ascii.eqb_spec c "T") as [->|Hc].
    + cbn [Js.parse_day_time] in H.
      destruct (Js.parse_time s5) as [[ms s6]|] eqn:Ht; [|done].
      cbn [mbind option_bind] in H.
      destruct (Js.parse_offset s6) as [off|] eqn:Ho; [|done].
      cbn [mbind option_bind] in H. injection H as <-.
      apply parse_time_inv in Ht as (f & Hms & Hunit & ->).
      apply parse_offset_inv in Ho as (o & Hvo & -> & ->).
      right. exists f, o.
      replace (day * Js.msPerDay + ms - Js.offset_ms o + Js.offset_ms o)%Z
        with (ms + day * Js.msPerDay)%Z by lia.
      assert (Hq : ((ms + day * Js.msPerDay) / Js.msPerDay = day)%Z).
      { rewrite Z.div_add by done. rewrite Z.div_small by (unfold Js.msPerDay; lia). lia. }
      assert (Hr : ((ms + day * Js.msPerDay) mod Js.msPerDay = ms)%Z).
      { rewrite Z_mod_plus_full. apply Z.mod_small. unfold Js.msPerDay. lia. }
      split; [done|]. split; [unfold Js.msPerDay; lia|]. split.
      * assert (Hoff : exists j, Js.offset_ms o = (j * 60000)%Z).
        { destruct o as [|oh om|oh om]; cbn [Js.offset_ms];
            [by exists 0%Z|by eexists|exists (- (oh * 60 + om))%Z; lia]. }
        destruct Hoff as (j & Hj). rewrite Hj.
        pose proof (Z.div_mod ms (Js.unit_ms f) ltac:(by destruct f)) as Hdiv.
        rewrite Hunit in Hdiv. set (q := (ms / Js.unit_ms f)%Z) in *. clearbody q.
        unfold Js.msPerDay. destruct f; cbn [Js.unit_ms] in *.
        -- replace (day * 86400000 + ms - j * 60000)%Z
             with ((day * 1440 + q - j) * 60000)%Z by lia. apply Z_mod_mult.
        -- replace (day * 86400000 + ms - j * 60000)%Z
             with ((day * 86400 + q - j * 60) * 1000)%Z by lia. apply Z_mod_mult.
        -- apply Z.mod_1_r.
      * unfold Js.iso_string.
        replace (day * Js.msPerDay + ms - Js.offset_ms o + Js.offset_ms o)%Z
          with (ms + day * Js.msPerDay)%Z by lia.
        rewrite Hq, Hr. unfold Js.write_date. by rewrite Hback.
    + exfalso. destruct c as [[] [] [] [] [] [] [] []]; try discriminate H; congruence.
Qed.

(** ** Timestamps *)

Lemma lookup_map {A B} (f : A -> B) (l : list A) i :
  map f l !! i = f <$> (l !! i).
Proof.
  revert i. induction l as [|x l IH]; intros [|i]; try done. simpl. apply IH.
Qed.

Lemma getEmail_ok c emailId (env : Env (EmailDetail.t string)) s resp :
  answers env (length (sent s)) resp ->
  (getEmail c emailId env s).1
  = Ret (EmailDetail.with_receivedAt resp
           (Js.new_Date (parse_other env) (Js.OfString (EmailDetail.receivedAt resp)))).
Proof.
  intros (r & Hx & Hok & Hj). unfold getEmail, bind.
  rewrite (request_resolved _ _ _ _ _ _ _ Hx). unfold try_catch, read_response.
  rewrite Hok. simpl. by rewrite Hj.
Qed.

(** C7.  [listEmails] returns the page of the service with, in every
    summary, [receivedAt] replaced by the date that [new Date] makes of the
    string, and every other field of the summaries and of the page as it
    came; [getEmail] does the same to the detail.

    The date denotes the instant of the string.  The date of
    [2024-01-01T00:00:00.000Z] is the instant 1704067200000 ms.  For every
    instant [t] whose date is of the years 0000 to 9999, every string of the
    date-time format that is written for [t] is made the date of [t] on
    every platform: the time written to the minute, to the second or to the
    millisecond (where [t] is a multiple of that unit), at the offset [Z] or
    at any offset [+HH:mm] or [-HH:mm]; the date alone, for the start of a
    day; and the string that [toISOString] writes.  Nothing else is read
    without the platform: a string that is read so is one of these forms,
    written for the instant that is returned.  A string outside these forms
    is read by the platform's own parser, and the date is what that parser
    says.  So a summary or a detail whose timestamp is written for [t] in
    one of the forms is returned with the date of [t].

    The conversion is idempotent: the date made of a date is that date, and
    the date made of the ISO string of a date is that date again. *)
Theorem timestamps_normalized :
  (forall c address options (env : Env (PaginatedEmailList.t string)) s page,
      answers env (length (sent s)) page ->
      exists result,
        (listEmails c address options env s).1 = Ret result
        /\ PaginatedEmailList.nextCursor result = PaginatedEmailList.nextCursor page
        /\ PaginatedEmailList.total result = PaginatedEmailList.total page
        /\ length (PaginatedEmailList.data result) = length (PaginatedEmailList.data page)
        /\ forall i e,
             PaginatedEmailList.data page !! i = Some e ->
             exists e',
               PaginatedEmailList.data result !! i = Some e'
               /\ EmailSummary.id e' = EmailSummary.id e
               /\ EmailSummary.from e' = EmailSummary.from e
               /\ EmailSummary.subject e' = EmailSummary.subject e
               /\ EmailSummary.textPreview e' = EmailSummary.textPreview e
               /\ EmailSummary.hasAttachments e' = EmailSummary.hasAttachments e
               /\ EmailSummary.receivedAt e'
                  = Js.new_Date (parse_other env) (Js.OfString (EmailSummary.receivedAt e)))
  /\ (forall c emailId (env : Env (EmailDetail.t string)) s resp,
      answers env (length (sent s)) resp ->
      exists result,
        (getEmail c emailId env s).1 = Ret result
        /\ EmailDetail.id result = EmailDetail.id resp
        /\ EmailDetail.from result = EmailDetail.from resp
        /\ EmailDetail.to result = EmailDetail.to resp
        /\ EmailDetail.subject result = EmailDetail.subject resp
        /\ EmailDetail.html result = EmailDetail.html resp
        /\ EmailDetail.text result = EmailDetail.text resp
        /\ EmailDetail.hasAttachments result = EmailDetail.hasAttachments resp
        /\ EmailDetail.attachments result = EmailDetail.attachments resp
        /\ EmailDetail.receivedAt result
           = Js.new_Date (parse_other env) (Js.OfString (EmailDetail.receivedAt resp)))
  /\ (forall other,
      Js.new_Date other (Js.OfString "2024-01-01T00:00:00.000Z")
      = Js.MkDate (Some 1704067200000%Z))
  /\ (forall other f o t,
      Js.valid_offset o = true ->
      (Js.first_ms <= t + Js.offset_ms o <= Js.last_ms)%Z ->
      (t mod Js.unit_ms f = 0)%Z ->
      Js.new_Date other (Js.OfString (Js.iso_string f o t)) = Js.MkDate (Some t))
  /\ (forall other t,
      (Js.first_ms <= t <= Js.last_ms)%Z ->
      (t mod Js.msPerDay = 0)%Z ->
      Js.new_Date other (Js.OfString (Js.iso_date t)) = Js.MkDate (Some t))
  /\ (forall other t,
      (Js.first_ms <= t <= Js.last_ms)%Z ->
      Js.new_Date other (Js.OfString (Js.toISOString t)) = Js.MkDate (Some t))
  /\ (forall s t,
      Js.parse_iso s = Some t ->
      ((Js.first_ms <= t <= Js.last_ms)%Z /\ (t mod Js.msPerDay = 0)%Z
       /\ s = Js.iso_date t)
      \/ exists f o,
           Js.valid_offset o = true
           /\ (Js.first_ms <= t + Js.offset_ms o <= Js.last_ms)%Z
           /\ (t mod Js.unit_ms f = 0)%Z
           /\ s = Js.iso_string f o t)
  /\ (forall other s,
      Js.parse_iso s = None ->
      Js.new_Date other (Js.OfString s) = Js.MkDate (other s ≫= Js.TimeClip))
  /\ (forall c address options (env : Env (PaginatedEmailList.t string)) s page i e f o t,
      answers env (length (sent s)) page ->
      PaginatedEmailList.data page !! i = Some e ->
      EmailSummary.receivedAt e = Js.iso_string f o t ->
      Js.valid_offset o = true ->
      (Js.first_ms <= t + Js.offset_ms o <= Js.last_ms)%Z ->
      (t mod Js.unit_ms f = 0)%Z ->
      exists result e',
        (listEmails c address options env s).1 = Ret result
        /\ PaginatedEmailList.data result !! i = Some e'
        /\ EmailSummary.receivedAt e' = Js.MkDate (Some t))
  /\ (forall c emailId (env : Env (EmailDetail.t string)) s resp f o t,
      answers env (length (sent s)) resp ->
      EmailDetail.receivedAt resp = Js.iso_string f o t ->
      Js.valid_offset o = true ->
      (Js.first_ms <= t + Js.offset_ms o <= Js.last_ms)%Z ->
      (t mod Js.unit_ms f = 0)%Z ->
      exists result,
        (getEmail c emailId env s).1 = Ret result
        /\ EmailDetail.receivedAt result = Js.MkDate (Some t))
  /\ (forall other value,
      Js.new_Date other (Js.OfDate (Js.new_Date other value)) = Js.new_Date other value)
  /\ (forall other s t,
      Js.new_Date other (Js.OfString s) = Js.MkDate (Some t) ->
      (Js.first_ms <= t <= Js.last_ms)%Z ->
      Js.new_Date other (Js.OfString (Js.toISOString t))
      = Js.new_Date other (Js.OfString s)).
Proof.
  split; [|split; [|split; [|split; [|split; [|split; [|split; [|split; [|split;
    [|split; [|split]]]]]]]]]].
  - intros c address options env s page Ha.
    exists (listed env page). rewrite (listEmails_ok _ _ _ _ _ _ Ha).
    split; [done|]. split; [done|]. split; [done|].
    split; [unfold listed; cbn [PaginatedEmailList.data]; by rewrite length_map|].
    intros i e Hi. eexists. unfold listed. cbn [PaginatedEmailList.data].
    rewrite lookup_map, Hi. by repeat split.
  - intros c emailId env s resp Ha. eexists.
    split; [by apply getEmail_ok|]. by repeat split.
  - reflexivity.
  - intros other f o t Ho Ht Hu. by apply new_Date_read, parse_iso_string.
  - intros other t Ht Hu. by apply new_Date_read, parse_iso_date.
  - intros other t Ht. by apply new_Date_read, parse_toISOString.
  - apply parse_iso_inv.
  - intros other s Hs. by apply new_Date_other.
  - intros c address options env s page i e f o t Ha Hi He Ho Ht Hu.
    exists (listed env page). rewrite (listEmails_ok _ _ _ _ _ _ Ha).
    eexists. split; [done|]. unfold listed. cbn [PaginatedEmailList.data].
    rewrite lookup_map, Hi. split; [done|]. cbn [EmailSummary.receivedAt
      EmailSummary.with_receivedAt]. rewrite He.
    by apply new_Date_read, parse_iso_string.
  - intros c emailId env s resp f o t Ha He Ho Ht Hu. eexists.
    split; [by apply getEmail_ok|].
    cbn [EmailDetail.receivedAt EmailDetail.with_receivedAt]. rewrite He.
    by apply new_Date_read, parse_iso_string.
  - intros other value. by destruct value.
  - intros other s t Hs Ht. rewrite Hs. by apply new_Date_read, parse_toISOString.
Qed.

(** A summary whose timestamp is written at the offset [+01:00] is returned
    with the date of its instant, one hour before the time that is written;
    a timestamp without an offset is read as the platform reads it. *)
Lemma timestamps_normalized_witness :
  exists result e',
    (listEmails anonymous "box@vanish.host" poll_options holds_hello_east start).1
    = Ret result
    /\ PaginatedEmailList.data result !! 0%nat = Some e'
    /\ EmailSummary.receivedAt e' = Js.MkDate (Some 1704067200000%Z)
    /\ EmailSummary.receivedAt hello_east = "2024-01-01T01:00:00+01:00"
    /\ Js.toISOString 1704067200000 = "2024-01-01T00:00:00.000Z"
    /\ Js.new_Date one_hour_east (Js.OfString local_time)
       = Js.MkDate (Some 1704063600000%Z).
Proof.
  destruct timestamps_normalized as (_ & _ & _ & _ & _ & _ & _ & Hother & Hlist & _).
  destruct (Hlist anonymous "box@vanish.host" poll_options holds_hello_east start
              (PaginatedEmailList.Make [hello_east] None 1) 0%nat hello_east
              Js.Seconds (Js.East 1 0) 1704067200000%Z)
    as (result & e' & Hr & He' & Hrec).
  - exists (page_response 1 [hello_east]). by repeat split.
  - reflexivity.
  - reflexivity.
  - reflexivity.
  - unfold Js.first_ms, Js.last_ms. cbn [Js.offset_ms]. lia.
  - reflexivity.
  - exists result, e'. split; [exact Hr|]. split; [exact He'|]. split; [exact Hrec|].
    split; [reflexivity|]. split; [reflexivity|].
    exact (Hother one_hour_east local_time eq_refl).
Defined.

(** * Further properties of the client *)

(** ** The constructor *)

Lemma strip_added_slash b : strip_trailing_slash (b +:+ "/") = b.
Proof.
  induction b as [|c b IH]; [done|].
  rewrite append_cons. cbn [strip_trailing_slash]. rewrite IH.
  replace (String.eqb (b +:+ "/") "") with false
    by (destruct b; by rewrite ?append_cons).
  by rewrite andb_false_r.
Qed.

Lemma strip_without_slash b : ends_with_slash b = false -> strip_trailing_slash b = b.
Proof.
  induction b as [|c b IH]; [done|].
  cbn [ends_with_slash strip_trailing_slash].
  destruct (String.eqb_spec b "") as [->|Hb].
  - intros ->. done.
  - intros H. rewrite andb_false_r. by rewrite IH.
Qed.

(** The constructor removes one trailing slash of the base URL and no more,
    so a base URL given with or without it makes the same client; the
    timeout is 30000 ms only when none is given, and an explicit 0 is kept;
    [createClient] builds what the constructor builds. *)
Theorem constructor_normalizes b options :
  baseUrl (new_VanishClient (b +:+ "/") options) = b
  /\ (ends_with_slash b = false ->
      baseUrl (new_VanishClient b options) = b
      /\ new_VanishClient (b +:+ "/") options = new_VanishClient b options)
  /\ (opt_timeout options = None -> timeout (new_VanishClient b options) = 30000%Z)
  /\ (forall t, opt_timeout options = Some t -> timeout (new_VanishClient b options) = t)
  /\ createClient b (Some options) = new_VanishClient b options
  /\ createClient b None
     = new_VanishClient b {| opt_apiKey := None; opt_timeout := None |}.
Proof.
  unfold new_VanishClient, createClient. cbn [baseUrl timeout].
  split; [apply strip_added_slash|]. split.
  - intros Hb. rewrite strip_added_slash, (strip_without_slash b Hb). done.
  - split; [by intros ->|]. split; [by intros t ->|]. done.
Qed.

Lemma constructor_normalizes_witness :
  baseUrl (new_VanishClient "https://api.vanish.host//" zero_timeout)
  = "https://api.vanish.host/"
  /\ new_VanishClient "https://api.vanish.host/" zero_timeout
     = new_VanishClient "https://api.vanish.host" zero_timeout
  /\ timeout (new_VanishClient "https://api.vanish.host" zero_timeout) = 0%Z.
Proof.
  split.
  - exact (proj1 (constructor_normalizes "https://api.vanish.host/" zero_timeout)).
  - destruct (constructor_normalizes "https://api.vanish.host" zero_timeout)
      as (_ & Hs & _ & Ht & _).
    split; [exact (proj2 (Hs eq_refl))|exact (Ht 0%Z eq_refl)].
Defined.

(** ** The requests of the operations *)

Lemma bind_outcome {T A B} (m : M T A) (k : A -> M T B) (env : Env T) s :
  (m env s).1 <> Spin ->
  (forall a s', (k a env s').1 <> Spin) ->
  (bind m k env s).1 <> Spin.
Proof.
  intros Hm Hk. unfold bind. destruct (m env s) as [[a|e|] s1]; simpl in *; auto.
Qed.

Lemma getAttachment_finishes {T} c emailId attachmentId (env : Env T) s :
  (getAttachment c emailId attachmentId env s).1 <> Spin.
Proof.
  exact (request_finishes c "GET" _
           {| params := None; req_body := None; rawResponse := true |} env s).
Qed.

Lemma getAttachment_state {T} c emailId attachmentId (env : Env T) s :
  (getAttachment c emailId attachmentId env s).2
  = fetched env s
      (fetch_init c "GET" ("/email/" +:+ emailId +:+ "/attachments/" +:+ attachmentId)
         {| params := None; req_body := None; rawResponse := true |}).
Proof.
  exact (request_state c "GET" _
           {| params := None; req_body := None; rawResponse := true |} env s).
Qed.

(** An operation other than the poll issues one request, whatever comes of
    it. *)
Lemma run_single {T A} (op : Operation T A) c (env : Env T) s :
  polls op = false ->
  (run c op env s).1 <> Spin
  /\ exists path options,
       (run c op env s).2 = fetched env s (fetch_init c (verb op) path options)
       /\ (generates op = false -> req_body options = None).
Proof.
  intros Hp.
  destruct op as [ | ? | ? ? | ? | ? ? ? | ? | ? | ? ? ? ? ?]; try discriminate;
    (split;
     [unfold_ops; try apply bind_outcome; try done;
      first [apply request_finishes | apply getAttachment_finishes]
     |eexists _, _; split;
      [unfold_ops; rewrite ?bind_state by done;
       first [apply request_state | apply getAttachment_state]
      |done]]).
Qed.

(** The calls of the loop of a poll, for any fuel. *)
Lemma run_calls {T A} (op : Operation T A) c (env : Env T) s :
  exists calls,
    sent (run c op env s).2 = sent s ++ calls
    /\ Forall (fun call =>
                 exists path options,
                   call = fetch_init c (verb op) path options
                   /\ (generates op = false -> req_body options = None)) calls.
Proof.
  destruct (polls op) eqn:Hp.
  - destruct op as [ | ? | ? ? | ? | ? ? ? | ? | ? | fuel address tmo interval initialCount];
      try discriminate.
    unfold run. rewrite pollForEmails_loop.
    destruct (poll_loop_sent fuel c address interval initialCount (now s + tmo) env s)
      as (n & Hn).
    eexists. split; [exact Hn|]. apply List.Forall_forall.
    intros call ->%repeat_spec. by eexists _, _.
  - destruct (run_single op c env s Hp) as (_ & path & options & Hs & Hb).
    exists [fetch_init c (verb op) path options]. split; [by rewrite Hs|].
    repeat constructor. by eexists _, _.
Qed.

Lemma request_headers_content_type c :
  request_headers c !! "Content-Type" = Some "application/json".
Proof.
  unfold request_headers. destruct (apiKey c) as [k|]; [|by rewrite lookup_singleton_eq].
  destruct (String.eqb k ""); [by rewrite lookup_singleton_eq|].
  rewrite lookup_insert_ne by done. by rewrite lookup_singleton_eq.
Qed.

Lemma request_headers_names c h :
  is_Some (request_headers c !! h) -> h = "Content-Type" \/ h = "Authorization".
Proof.
  unfold request_headers. intros [v Hv].
  destruct (decide (h = "Content-Type")) as [|Hc]; [by left|].
  destruct (decide (h = "Authorization")) as [|Ha]; [by right|].
  destruct (apiKey c) as [k|]; [destruct (String.eqb k "")|];
    rewrite ?lookup_insert_ne, lookup_singleton_ne in Hv by done; done.
Qed.

(** Every request of every operation, with or without a body and also the
    download of an attachment, carries [Content-Type: application/json], and
    no header besides [Content-Type] and [Authorization]. *)
Theorem content_type_header {T A} (op : Operation T A) c (env : Env T) s :
  exists calls,
    sent (run c op env s).2 = sent s ++ calls
    /\ Forall (fun call =>
                 req_headers call !! "Content-Type" = Some "application/json"
                 /\ forall h, is_Some (req_headers call !! h) ->
                              h = "Content-Type" \/ h = "Authorization") calls.
Proof.
  destruct (run_sent op c env s) as (calls & Hs & Hh).
  exists calls. split; [exact Hs|]. eapply Forall_impl; [exact Hh|].
  intros call ->. split; [apply request_headers_content_type|].
  apply request_headers_names.
Qed.

(** Every request of an operation has the method the operation is written
    with and is armed with the timeout of the client; no operation but
    [generateEmail] sends a body, so the poll and the other reading
    operations issue GET requests without a body only. *)
Theorem request_shape {T A} (op : Operation T A) c (env : Env T) s :
  exists calls,
    sent (run c op env s).2 = sent s ++ calls
    /\ Forall (fun call =>
                 method call = verb op
                 /\ signal call = timeout c
                 /\ (generates op = false -> body call = None)) calls.
Proof.
  destruct (run_calls op c env s) as (calls & Hs & Hc).
  exists calls. split; [exact Hs|]. eapply Forall_impl; [exact Hc|].
  intros call (path & options & -> & Hb). split; [done|]. split; [done|].
  intros Hg. cbn [body fetch_init]. by rewrite (Hb Hg).
Qed.

Lemma request_shape_witness :
  exists calls,
    sent (run keyed (PollForEmails 3 "box@vanish.host" 60000 5000 0)
            arrives_third start).2 = calls
    /\ length calls = 3%nat
    /\ Forall (fun call => method call = "GET" /\ signal call = 30000%Z /\ body call = None)
         calls.
Proof.
  destruct (request_shape (PollForEmails 3 "box@vanish.host" 60000 5000 0)
              keyed arrives_third start) as (calls & Hs & Hc).
  exists calls. split; [exact Hs|]. split.
  - change (sent start ++ calls) with calls in Hs. rewrite <- Hs. reflexivity.
  - eapply Forall_impl; [exact Hc|]. intros call (Hm & Ht & Hb).
    split; [exact Hm|]. split; [exact Ht|]. by apply Hb.
Defined.

(** An operation that puts no mailbox address into its path issues exactly
    one request, whether it returns or throws, and does not sleep: a failed
    request is not tried again, at once or after a pause. *)
Theorem one_request_no_retry {T A} (op : Operation T A) c (env : Env T) s :
  polls op = false -> addressed op = false ->
  (exists call, sent (run c op env s).2 = sent s ++ [call])
  /\ timers (run c op env s).2 = timers s.
Proof.
  intros Hp _. destruct (run_single op c env s Hp) as (_ & path & options & Hs & _).
  rewrite Hs. split; [by eexists|done].
Qed.

Lemma one_request_no_retry_witness :
  polls GetDomains = false
  /\ addressed GetDomains = false
  /\ (run anonymous GetDomains times_out start).1
     = Throw (Vanish {| message := "Request timeout"; statusCode := None |})
  /\ length (sent (run anonymous GetDomains times_out start).2) = 1%nat
  /\ timers (run anonymous GetDomains times_out start).2 = [].
Proof.
  split; [reflexivity|]. split; [reflexivity|]. split; [reflexivity|].
  destruct (one_request_no_retry GetDomains anonymous times_out start eq_refl eq_refl)
    as ((call & Hs) & Ht).
  split; [by rewrite Hs|exact Ht].
Defined.

(** ** What makes an operation return, and what it throws *)

Section Inversion.
Context {T : Type}.
Implicit Types (c : VanishClient) (env : Env T) (s : State).

(** The JSON overload of [request] returns exactly when the service answers
    with a status in 200-299 and a body that reads as JSON. *)
Lemma request_json_returns c method path ps b env s (a : T) :
  (request c method path {| params := ps; req_body := b; rawResponse := false |} env s).1
  = Ret a
  <-> answers env (length (sent s)) a.
Proof.
  split.
  - destruct (settles (net env (length (sent s)))) as [r|f] eqn:Hx.
    + rewrite (request_resolved _ _ _ _ _ _ _ Hx). unfold try_catch, read_response.
      cbn [rawResponse]. destruct (ok r) eqn:Hok; cbn [negb].
      * destruct (json r) as [a'|[|d]] eqn:Hj; simpl; intros [= <-].
        by exists r.
      * unfold throw_VanishError. by destruct (Js.ToString _).
    + rewrite (request_rejected _ _ _ _ _ _ _ Hx). by destruct f.
  - intros (r & Hx & Hok & Hj). rewrite (request_resolved _ _ _ _ _ _ _ Hx).
    unfold try_catch, read_response. rewrite Hok. simpl. by rewrite Hj.
Qed.

(** What [request] throws is a [VanishError], and the status code of that
    error, when it has one, is the status of a response that was not
    [ok]. *)
Lemma request_throws c method path options env s e :
  (request c method path options env s).1 = Throw e ->
  exists v, e = Vanish v
    /\ forall S, statusCode v = Some S ->
         exists r, settles (net env (length (sent s))) = Resolved r
                   /\ ok r = false /\ status r = S.
Proof.
  destruct (settles (net env (length (sent s)))) as [r|f] eqn:Hx.
  - rewrite (request_resolved _ _ _ _ _ _ _ Hx). unfold try_catch, read_response.
    destruct (ok r) eqn:Hok; cbn [negb].
    + destruct (rawResponse options).
      * unfold bind. destruct (arrayBuffer r) as [d|[|d]]; simpl; intros [= <-];
          by eexists.
      * destruct (json r) as [d|[|d]]; simpl; intros [= <-]; by eexists.
    + unfold throw_VanishError. destruct (Js.ToString _) as [m|]; simpl; intros [= <-].
      * eexists. split; [done|]. intros S [= <-]. by exists r.
      * by eexists.
  - rewrite (request_rejected _ _ _ _ _ _ _ Hx). destruct f; simpl; intros [= <-];
      by eexists.
Qed.

End Inversion.

Lemma bind_ret_returns {T A B} (m : M T A) (f : A -> B) (env : Env T) s b :
  (bind m (fun a => ret (f a)) env s).1 = Ret b
  <-> exists a, (m env s).1 = Ret a /\ f a = b.
Proof.
  unfold bind, ret. destruct (m env s) as [[a|e|] s1]; simpl; split.
  - intros [= <-]. by exists a.
  - by intros (a' & [= <-] & <-).
  - done.
  - by intros (? & [=] & _).
  - done.
  - by intros (? & [=] & _).
Qed.

Lemma bind_ret_throws {T A B} (m : M T A) (k : A -> M T B) (env : Env T) s e :
  (forall a s', exists b, (k a env s').1 = Ret b) ->
  (bind m k env s).1 = Throw e -> (m env s).1 = Throw e.
Proof.
  intros Hk. unfold bind. destruct (m env s) as [[a|e'|] s1]; simpl.
  - destruct (Hk a s1) as (b & Hb). rewrite Hb. discriminate.
  - by intros [= ->].
  - discriminate.
Qed.

(** What [listEmails] does, by outcome. *)
Lemma listEmails_returns c address options (env : Env (PaginatedEmailList.t string)) s p :
  (listEmails c address options env s).1 = Ret p
  <-> exists page, answers env (length (sent s)) page /\ p = listed env page.
Proof.
  split.
  - unfold listEmails. intros H.
    destruct (request (T:=PaginatedEmailList.t string) c "GET"
                ("/mailbox/" +:+ Js.encodeURIComponent address)
                {| params := Some [("limit", PNumber <$> limit options);
                                   ("cursor", PString <$> cursor options)];
                   req_body := None; rawResponse := false |} env s)
      as [[resp|e|] s1] eqn:Hreq.
    + exists resp. split.
      * eapply (proj1 (request_json_returns _ _ _ _ _ _ _ _)). by rewrite Hreq.
      * unfold bind in H. rewrite Hreq in H. by inversion H.
    + unfold bind in H. by rewrite Hreq in H.
    + unfold bind in H. by rewrite Hreq in H.
  - intros (page & Ha & ->). by rewrite (listEmails_ok _ _ _ _ _ _ Ha).
Qed.

Lemma listEmails_throws c address options (env : Env (PaginatedEmailList.t string)) s e :
  (listEmails c address options env s).1 = Throw e ->
  exists v, e = Vanish v
    /\ forall S, statusCode v = Some S ->
         exists r, settles (net env (length (sent s))) = Resolved r
                   /\ ok r = false /\ status r = S.
Proof.
  unfold listEmails. intros H%bind_ret_throws; [|by eexists].
  exact (request_throws c _ _ _ env s e H).
Qed.

(** An operation that reads JSON returns a value only for an answer with a
    status in 200-299 whose body reads as JSON, and the value is then the
    field of the body that the operation is written to return:
    [getDomains] the [domains], [generateEmail] the [email], [deleteEmail]
    the [success] flag, [deleteMailbox] the [deleted] count, [getEmail] and
    [listEmails] the body with its timestamps made dates. *)
Theorem results_come_from_success c :
  (forall (env : Env DomainsBody) s l,
      (getDomains c env s).1 = Ret l
      <-> exists b, answers env (length (sent s)) b /\ domains b = l)
  /\ (forall options (env : Env MailboxBody) s address,
      (generateEmail c options env s).1 = Ret address
      <-> exists b, answers env (length (sent s)) b /\ email b = address)
  /\ (forall emailId (env : Env SuccessBody) s flag,
      (deleteEmail c emailId env s).1 = Ret flag
      <-> exists b, answers env (length (sent s)) b /\ success b = flag)
  /\ (forall address (env : Env DeletedBody) s n,
      (deleteMailbox c address env s).1 = Ret n
      <-> exists b, answers env (length (sent s)) b /\ deleted b = n)
  /\ (forall emailId (env : Env (EmailDetail.t string)) s d,
      (getEmail c emailId env s).1 = Ret d
      <-> exists b, answers env (length (sent s)) b
            /\ d = EmailDetail.with_receivedAt b
                     (Js.new_Date (parse_other env)
                        (Js.OfString (EmailDetail.receivedAt b))))
  /\ (forall address options (env : Env (PaginatedEmailList.t string)) s p,
      (listEmails c address options env s).1 = Ret p
      <-> exists page, answers env (length (sent s)) page /\ p = listed env page).
Proof.
  split; [|split; [|split; [|split; [|split]]]].
  - intros env s l. unfold getDomains. rewrite bind_ret_returns.
    by setoid_rewrite (request_json_returns c "GET" "/domains" None None env s).
  - intros options env s address. unfold generateEmail. rewrite bind_ret_returns.
    by setoid_rewrite (request_json_returns c "POST" "/mailbox" None _ env s).
  - intros emailId env s flag. unfold deleteEmail. rewrite bind_ret_returns.
    by setoid_rewrite (request_json_returns c "DELETE" _ None None env s).
  - intros address env s n. unfold deleteMailbox. rewrite bind_ret_returns.
    by setoid_rewrite (request_json_returns c "DELETE" _ None None env s).
  - intros emailId env s d. split.
    + unfold getEmail. intros H.
      destruct (request (T:=EmailDetail.t string) c "GET" ("/email/" +:+ emailId)
                  no_options env s) as [[resp|e|] s1] eqn:Hreq;
        unfold bind in H; rewrite Hreq in H; try done.
      exists resp. split; [|by inversion H].
      eapply (proj1 (request_json_returns _ _ _ _ _ _ _ _)).
      unfold no_options in Hreq. by rewrite Hreq.
    + intros (b & Ha & ->). by apply getEmail_ok.
  - intros address options env s p. apply listEmails_returns.
Qed.



(** ** The poll, whatever the service does *)

Section PollInvariant.
Context (env : Env (PaginatedEmailList.t string)).
Context (c : VanishClient) (address : string) (interval initialCount : Z).

Local Abbreviation call := (listEmails_call c address poll_options).
Local Abbreviation loop fuel deadline :=
  (poll_loop fuel c address interval initialCount deadline).

(** One round of the loop, by cases. *)
Lemma poll_loop_step fuel deadline s :
  loop (S fuel) deadline env s
  = if (now s <? deadline)%Z then
      match listEmails c address poll_options env s with
      | (Ret result, s1) =>
          if (initialCount <? PaginatedEmailList.total result)%Z
             && (0 <? length (PaginatedEmailList.data result))%nat
          then (Ret (head (PaginatedEmailList.data result)), s1)
          else loop fuel deadline env (slept env s1 interval)
      | (Throw e, s1) => (Throw e, s1)
      | (Spin, s1) => (Spin, s1)
      end
    else (Ret None, s).
Proof.
  cbn [poll_loop]. unfold bind at 1, Date_now.
  destruct (now s <? deadline)%Z; [|done].
  unfold bind at 1. destruct (listEmails c address poll_options env s) as [[r|e|] s1];
    try done.
  by destruct (_ && _).
Qed.

(** What the loop has done when it stops, for any fuel and any service:
    its calls are calls of [listEmails] with [limit] 1 and its sleeps are of
    the interval; [null] comes after as many sleeps as calls and not before
    the deadline; an item comes from the last call, is the first item of an
    answer whose total exceeds the initial count, and no sleep follows it; an
    error comes from the last call, is a [VanishError], and no sleep follows
    it. *)
Lemma poll_loop_inv fuel deadline s :
  exists n,
    sent (loop fuel deadline env s).2 = sent s ++ repeat call n
    /\ (now s <= now (loop fuel deadline env s).2)%Z
    /\ match (loop fuel deadline env s).1 with
       | Ret None =>
           timers (loop fuel deadline env s).2 = timers s ++ repeat interval n
           /\ (deadline <= now (loop fuel deadline env s).2)%Z
       | Ret (Some item) =>
           exists m page first rest,
             n = S m
             /\ timers (loop fuel deadline env s).2 = timers s ++ repeat interval m
             /\ answers env (length (sent s) + m) page
             /\ (initialCount < PaginatedEmailList.total page)%Z
             /\ PaginatedEmailList.data page = first :: rest
             /\ item = EmailSummary.with_receivedAt first
                         (Js.new_Date (parse_other env)
                            (Js.OfString (EmailSummary.receivedAt first)))
       | Throw e =>
           exists m v,
             n = S m
             /\ timers (loop fuel deadline env s).2 = timers s ++ repeat interval m
             /\ e = Vanish v
             /\ forall S, statusCode v = Some S ->
                  exists r, settles (net env (length (sent s) + m)) = Resolved r
                            /\ ok r = false /\ status r = S
       | Spin => timers (loop fuel deadline env s).2 = timers s ++ repeat interval n
       end.
Proof.
  revert s. induction fuel as [|fuel IH]; intros s.
  - exists 0%nat. simpl. rewrite !app_nil_r. split; [done|]. split; [lia|done].
  - rewrite poll_loop_step. destruct (now s <? deadline)%Z eqn:Hnow.
    2:{ exists 0%nat. simpl. rewrite !app_nil_r. split; [done|]. split; [lia|].
        split; [done|]. by apply Z.ltb_ge. }
    pose proof (listEmails_state c address poll_options env s) as Hs.
    destruct (listEmails c address poll_options env s) as [[result|e|] s1] eqn:Hl;
      simpl in Hs; subst s1.
    + assert (Hret : (listEmails c address poll_options env s).1 = Ret result)
        by (by rewrite Hl).
      apply listEmails_returns in Hret as (page & Ha & ->).
      destruct ((initialCount <? PaginatedEmailList.total (listed env page))%Z
                && (0 <? length (PaginatedEmailList.data (listed env page)))%nat)
        eqn:Hq.
      * exists 1%nat. cbn [fst snd sent fetched now timers repeat].
        split; [done|]. split; [lia|].
        apply andb_true_iff in Hq as [Ht Hd].
        unfold listed in *. cbn [PaginatedEmailList.data PaginatedEmailList.total] in *.
        destruct (PaginatedEmailList.data page) as [|first rest] eqn:Hdata;
          [simpl in Hd; by apply Nat.ltb_lt in Hd; lia|].
        cbn [map head]. exists 0%nat, page, first, rest.
        rewrite Nat.add_0_r, app_nil_r. repeat split; try done. by apply Z.ltb_lt.
      * destruct (IH (slept env (fetched env s call) interval)) as (n & Hsent & Hclock & Hout).
        exists (S n). split; [rewrite Hsent; cbn; by rewrite <- app_assoc|].
        split; [pose proof (timer_delay_bounds interval);
                cbn [now slept fetched] in Hclock; lia|].
        destruct (loop fuel deadline env (slept env (fetched env s call) interval)).1
          as [[item|]|e|].
        -- destruct Hout as (m & page' & first & rest & -> & Ht & Ha' & Hc & Hd & Hi).
           exists (S m), page', first, rest. split; [done|].
           split; [rewrite Ht; cbn; by rewrite <- app_assoc|].
           split; [|done].
           cbn [sent slept fetched] in Ha'. rewrite length_app in Ha'. cbn in Ha'.
           by replace (length (sent s) + S m)%nat with (length (sent s) + 1 + m)%nat by lia.
        -- destruct Hout as (Ht & Hd). split; [|done].
           rewrite Ht. cbn. by rewrite <- app_assoc.
        -- destruct Hout as (m & v & -> & Ht & He & Hst).
           exists (S m), v. split; [done|].
           split; [rewrite Ht; cbn; by rewrite <- app_assoc|]. split; [done|].
           intros S HS. destruct (Hst S HS) as (r & Hr).
           exists r. cbn [sent slept fetched] in Hr. rewrite length_app in Hr. cbn in Hr.
           by replace (length (sent s) + Datatypes.S m)%nat
             with (length (sent s) + 1 + m)%nat by lia.
        -- rewrite Hout. cbn. by rewrite <- app_assoc.
    + assert (Hthrow : (listEmails c address poll_options env s).1 = Throw e)
        by (by rewrite Hl).
      apply listEmails_throws in Hthrow as (v & -> & Hst).
      exists 1%nat. cbn [fst snd sent fetched now timers repeat].
      split; [done|]. split; [lia|].
      exists 0%nat, v. rewrite Nat.add_0_r, app_nil_r. by repeat split.
    + exfalso. apply (listEmails_outcome c address poll_options env s). by rewrite Hl.
Qed.

(** With a positive interval that the timer waits for in full, the loop
    stops within as many rounds as intervals fit into the time that is
    left. *)
Lemma poll_loop_stops k deadline s fuel :
  (0 < interval <= Js.TIMEOUT_MAX)%Z ->
  (deadline - now s <= Z.of_nat k * interval)%Z ->
  (k < fuel)%nat ->
  (loop fuel deadline env s).1 <> Spin
  /\ (length (sent (loop fuel deadline env s).2) <= length (sent s) + k)%nat.
Proof.
  intros Hi. pose proof (timer_delay_honoured interval ltac:(lia)) as Hw.
  revert s fuel. induction k as [|k IH]; intros s fuel Hk Hfuel;
    (destruct fuel as [|fuel]; [lia|]); rewrite poll_loop_step.
  - replace (now s <? deadline)%Z with false by (symmetry; apply Z.ltb_ge; lia).
    split; [done|simpl; lia].
  - destruct (now s <? deadline)%Z; [|split; [done|simpl; lia]].
    pose proof (listEmails_state c address poll_options env s) as Hs.
    pose proof (listEmails_outcome c address poll_options env s) as Ho.
    destruct (listEmails c address poll_options env s) as [[result|e|] s1];
      simpl in Hs, Ho; subst s1; [| |done].
    + destruct (_ && _).
      * split; [done|]. cbn. rewrite length_app. simpl. lia.
      * destruct (IH (slept env (fetched env s call) interval) fuel) as [Hf Hn];
          [cbn [now slept fetched]; rewrite Hw; lia|lia|].
        split; [done|]. cbn [sent slept fetched] in Hn. rewrite length_app in Hn.
        simpl in Hn. lia.
    + split; [done|]. cbn. rewrite length_app. simpl. lia.
Qed.

End PollInvariant.

(** Whatever [request] throws, in either of its overloads, is a
    [VanishError], never a failure of the platform as it came: every failure
    of [fetch] and of the reading of the body passes through the [catch]
    block.  When that error has a status code, the request was answered with
    that status, a status outside 200-299.  [getAttachment] returns what
    [request] returns and throws what it throws, so the same holds of it. *)
Theorem request_errors_carry_status {T} c (env : Env T) s :
  (forall method path options e,
      (request c method path options env s).1 = Throw e ->
      exists v,
        e = Vanish v
        /\ forall S, statusCode v = Some S ->
             exists r, settles (net env (length (sent s))) = Resolved r
                       /\ ok r = false /\ status r = S)
  /\ (forall emailId attachmentId e,
      (getAttachment c emailId attachmentId env s).1 = Throw e ->
      exists v,
        e = Vanish v
        /\ forall S, statusCode v = Some S ->
             exists r, settles (net env (length (sent s))) = Resolved r
                       /\ ok r = false /\ status r = S).
Proof.
  split.
  - intros method path options e. apply request_throws.
  - intros emailId attachmentId e.
    exact (request_throws c "GET" _
             {| params := None; req_body := None; rawResponse := true |} env s e).
Qed.

Lemma request_errors_carry_status_witness :
  (getAttachment anonymous "e1" "a1" bad_id_env start).1
  = Throw (Vanish {| message := "bad id"; statusCode := Some 404%Z |})
  /\ exists r, settles (net bad_id_env 0) = Resolved r /\ ok r = false /\ status r = 404%Z.
Proof.
  assert (He : (getAttachment anonymous "e1" "a1" bad_id_env start).1
               = Throw (Vanish {| message := "bad id"; statusCode := Some 404%Z |}))
    by reflexivity.
  split; [exact He|].
  destruct (request_errors_carry_status anonymous bad_id_env start) as [_ Hget].
  destruct (Hget "e1" "a1" _ He) as (v & Hv & Hst).
  inversion Hv; subst v. exact (Hst 404%Z eq_refl).
Defined.

(** With a positive interval that [setTimeout] waits for in full (at most
    2147483647 ms), a poll finishes whatever the service answers: it makes at
    most [ceil(T / I)] calls (none when [T <= 0]), each the call of
    [listEmails] with [limit] 1. *)
Theorem poll_is_bounded
    (env : Env (PaginatedEmailList.t string)) c address (T I C : Z) s fuel :
  (0 < I <= Js.TIMEOUT_MAX)%Z ->
  (Z.to_nat (ceil_div (Z.max 0 T) I) < fuel)%nat ->
  (pollForEmails fuel c address T I C env s).1 <> Spin
  /\ exists n : nat,
       (Z.of_nat n <= ceil_div (Z.max 0 T) I)%Z
       /\ sent (pollForEmails fuel c address T I C env s).2
          = sent s ++ repeat (listEmails_call c address poll_options) n.
Proof.
  intros HI' Hfuel. assert (HI : (0 < I)%Z) by lia. rewrite pollForEmails_loop.
  pose proof (ceil_div_bound (Z.max 0 T) I HI) as Hb.
  pose proof (ceil_div_nonneg (Z.max 0 T) I ltac:(lia) HI) as Hn.
  destruct (poll_loop_stops env c address I C (Z.to_nat (ceil_div (Z.max 0 T) I))
              (now s + T) s fuel HI' ltac:(lia) Hfuel) as [Hstop Hlen].
  split; [exact Hstop|].
  destruct (poll_loop_inv env c address I C fuel (now s + T) s) as (n & Hsent & _ & _).
  exists n. split; [|done].
  rewrite Hsent, length_app, repeat_length in Hlen. lia.
Qed.

Lemma poll_is_bounded_witness :
  (pollForEmails 4 anonymous "box@vanish.host" 12000 5000 0 too_many start).1 <> Spin
  /\ exists n : nat,
       (Z.of_nat n <= 3)%Z
       /\ length (sent (pollForEmails 4 anonymous "box@vanish.host" 12000 5000 0
                          too_many start).2) = n.
Proof.
  destruct (poll_is_bounded too_many anonymous "box@vanish.host" 12000 5000 0 start 4)
    as (Hf & n & Hn & Hs).
  - unfold Js.TIMEOUT_MAX. lia.
  - vm_compute. lia.
  - split; [exact Hf|]. exists n. split; [exact Hn|].
    rewrite Hs. cbn [start sent app]. apply repeat_length.
Defined.

(** What a poll returns is justified, for any service and any fuel: an item
    is the first item (its timestamp made a date) of the answer to the last
    call, an answer whose total exceeds the initial count, and no sleep
    follows that call; [null] is returned only once the clock has reached
    the deadline, after as many sleeps as calls; and with a timeout that is
    not positive [null] is returned at once, without any request. *)
Theorem poll_result_is_justified
    (env : Env (PaginatedEmailList.t string)) c address (T I C : Z) s fuel :
  (forall item,
      (pollForEmails fuel c address T I C env s).1 = Ret (Some item) ->
      exists m page first rest,
        sent (pollForEmails fuel c address T I C env s).2
        = sent s ++ repeat (listEmails_call c address poll_options) (S m)
        /\ timers (pollForEmails fuel c address T I C env s).2 = timers s ++ repeat I m
        /\ answers env (length (sent s) + m) page
        /\ (C < PaginatedEmailList.total page)%Z
        /\ PaginatedEmailList.data page = first :: rest
        /\ item = EmailSummary.with_receivedAt first
                    (Js.new_Date (parse_other env)
                       (Js.OfString (EmailSummary.receivedAt first))))
  /\ ((pollForEmails fuel c address T I C env s).1 = Ret None ->
      (now s + T <= now (pollForEmails fuel c address T I C env s).2)%Z
      /\ exists n,
           sent (pollForEmails fuel c address T I C env s).2
           = sent s ++ repeat (listEmails_call c address poll_options) n
           /\ timers (pollForEmails fuel c address T I C env s).2
              = timers s ++ repeat I n)
  /\ ((T <= 0)%Z -> (0 < fuel)%nat ->
      pollForEmails fuel c address T I C env s = (Ret None, s)).
Proof.
  rewrite pollForEmails_loop.
  destruct (poll_loop_inv env c address I C fuel (now s + T) s) as (n & Hsent & _ & Hout).
  split; [|split].
  - intros item Hi. rewrite Hi in Hout.
    destruct Hout as (m & page & first & rest & -> & Ht & Ha & Hc & Hd & ->).
    by exists m, page, first, rest.
  - intros Hnone. rewrite Hnone in Hout. destruct Hout as [Ht Hd].
    split; [exact Hd|]. by exists n.
  - intros HT Hfuel. destruct fuel as [|fuel]; [lia|].
    apply poll_loop_deadline. lia.
Qed.

Lemma poll_result_is_justified_witness :
  (pollForEmails 3 anonymous "box@vanish.host" 60000 5000 0 counted_first start).1
  = Ret (Some (EmailSummary.Make "m1" "alice@example.org" "Hello" "Hello, world"
                 (Js.MkDate (Some 1704067200000%Z)) false))
  /\ exists m page first rest,
       length (sent (pollForEmails 3 anonymous "box@vanish.host" 60000 5000 0
                       counted_first start).2) = S m
       /\ answers counted_first m page
       /\ (0 < PaginatedEmailList.total page)%Z
       /\ PaginatedEmailList.data page = first :: rest.
Proof.
  assert (Hr : (pollForEmails 3 anonymous "box@vanish.host" 60000 5000 0
                  counted_first start).1
               = Ret (Some (EmailSummary.Make "m1" "alice@example.org" "Hello"
                              "Hello, world" (Js.MkDate (Some 1704067200000%Z)) false)))
    by reflexivity.
  split; [exact Hr|].
  destruct (poll_result_is_justified counted_first anonymous "box@vanish.host"
              60000 5000 0 start 3) as (Hsome & _).
  destruct (Hsome _ Hr) as (m & page & first & rest & Hs & _ & Ha & Hc & Hd & _).
  exists m, page, first, rest. split; [|by split].
  rewrite Hs. cbn [start sent app]. apply repeat_length.
Defined.

(** ** The URL of a mailbox *)




Lemma length_append s t : String.length (s +:+ t) = (String.length s + String.length t)%nat.
Proof. induction s as [|c s IH]; [done|]. rewrite append_cons. simpl. by rewrite IH. Qed.

Lemma append_cancel_r s1 s2 t : s1 +:+ t = s2 +:+ t -> s1 = s2.
Proof.
  revert s2. induction s1 as [|c s1 IH]; intros [|d s2] H; [done| | |].
  - apply (f_equal String.length) in H. rewrite !length_append in H. simpl in H. lia.
  - apply (f_equal String.length) in H. rewrite !length_append in H. simpl in H. lia.
  - rewrite !append_cons in H. inversion H; subst. f_equal. by apply IH.
Qed.

Lemma append_cancel_l s t1 t2 : s +:+ t1 = s +:+ t2 -> t1 = t2.
Proof.
  induction s as [|c s IH]; [done|]. rewrite !append_cons. intros [= H]. by apply IH.
Qed.

(** The address can be read back from the URL, so two addresses never share
    a URL: percent-decoding what [encodeURIComponent] wrote returns the
    address, and the requests of [deleteMailbox], and those of [listEmails]
    with the same options, are the same only for the same address. *)
Theorem mailbox_url_identifies_address c :
  (forall address, percent_decode (Js.encodeURIComponent address) = address)
  /\ (forall a a' (env : Env DeletedBody) s,
      sent (deleteMailbox c a env s).2 = sent (deleteMailbox c a' env s).2 -> a = a')
  /\ (forall a a' options (env : Env (PaginatedEmailList.t string)) s,
      sent (listEmails c a options env s).2 = sent (listEmails c a' options env s).2 ->
      a = a').
Proof.
  assert (Hinj : forall a a', Js.encodeURIComponent a = Js.encodeURIComponent a' -> a = a').
  { intros a a' H. by rewrite <- (percent_decode_encode a), H, percent_decode_encode. }
  split; [apply percent_decode_encode|]. split.
  - intros a a' env s. rewrite !deleteMailbox_sent. intros H%app_inv_head.
    assert (Hu : url (fetch_init c "DELETE" ("/mailbox/" +:+ Js.encodeURIComponent a)
                        no_options)
                 = url (fetch_init c "DELETE" ("/mailbox/" +:+ Js.encodeURIComponent a')
                          no_options)) by congruence.
    cbn [url fetch_init params no_options request_url] in Hu.
    by apply append_cancel_l, append_cancel_l, Hinj in Hu.
  - intros a a' options env s. rewrite !listEmails_sent. intros H%app_inv_head.
    assert (Hu : url (listEmails_call c a options) = url (listEmails_call c a' options))
      by congruence.
    unfold listEmails_call in Hu. cbn [url fetch_init params] in Hu.
    rewrite !request_url_query in Hu.
    destruct (decide _) in Hu.
    + by apply append_cancel_l, append_cancel_l, Hinj in Hu.
    + rewrite ?append_assoc in Hu.
      by apply append_cancel_l, append_cancel_l, append_cancel_r, Hinj in Hu.
Qed.

(** ** How late a poll gives up *)

Lemma poll_loop_overshoot
    (env : Env (PaginatedEmailList.t string)) c address interval initialCount
    fuel deadline s :
  (poll_loop fuel c address interval initialCount deadline env s).1 = Ret None ->
  (poll_loop fuel c address interval initialCount deadline env s).2 = s
  \/ exists m,
       sent (poll_loop fuel c address interval initialCount deadline env s).2
       = sent s ++ repeat (listEmails_call c address poll_options) (S m)
       /\ (now (poll_loop fuel c address interval initialCount deadline env s).2
           < deadline + Z.of_N (elapsed (net env (length (sent s) + m)))
             + Z.max 0 interval + Z.of_N (lag env (length (timers s) + m)))%Z.
Proof.
  revert s. induction fuel as [|fuel IH]; intros s; [done|].
  rewrite poll_loop_step. destruct (now s <? deadline)%Z eqn:Hnow; [|by left].
  apply Z.ltb_lt in Hnow.
  pose proof (listEmails_state c address poll_options env s) as Hs.
  destruct (listEmails c address poll_options env s) as [[result|e|] s1] eqn:Hl;
    simpl in Hs; subst s1; [|done|done].
  destruct (_ && _) eqn:Hq.
  - cbn [fst]. intros Hh. apply andb_true_iff in Hq as [_ Hd].
    destruct (PaginatedEmailList.data result); [simpl in Hd; done|done].
  - intros Hnone. right.
    destruct (IH _ Hnone) as [Hsame|(m & Hsent & Hclock)].
    + exists 0%nat. rewrite Hsame. cbn [sent now timers slept fetched repeat].
      rewrite !Nat.add_0_r. pose proof (timer_delay_bounds interval).
      split; [done|lia].
    + exists (S m). split.
      * rewrite Hsent. cbn. by rewrite <- app_assoc.
      * cbn [sent timers slept fetched] in Hclock. rewrite !length_app in Hclock.
        cbn [length] in Hclock.
        by replace (length (sent s) + S m)%nat with (length (sent s) + 1 + m)%nat by lia;
           replace (length (timers s) + S m)%nat with (length (timers s) + 1 + m)%nat
             by lia.
Qed.

(** A poll that returns [null] has either made no request at all, the
    deadline being reached at the start, or has overshot the deadline by
    less than its last check and its last sleep took: the loop tests the
    deadline before a check only, and sleeps the whole interval after it. *)
Theorem poll_overshoot
    (env : Env (PaginatedEmailList.t string)) c address (T I C : Z) s fuel :
  (pollForEmails fuel c address T I C env s).1 = Ret None ->
  (pollForEmails fuel c address T I C env s).2 = s
  \/ exists m,
       sent (pollForEmails fuel c address T I C env s).2
       = sent s ++ repeat (listEmails_call c address poll_options) (S m)
       /\ (now (pollForEmails fuel c address T I C env s).2
           < now s + T + Z.of_N (elapsed (net env (length (sent s) + m)))
             + Z.max 0 I + Z.of_N (lag env (length (timers s) + m)))%Z.
Proof. rewrite pollForEmails_loop. apply poll_loop_overshoot. Qed.

Lemma poll_overshoot_witness :
  (pollForEmails 4 anonymous "box@vanish.host" 12000 5000 0 never_arrives start).1
  = Ret None
  /\ now (pollForEmails 4 anonymous "box@vanish.host" 12000 5000 0
            never_arrives start).2 = 16060%Z
  /\ exists m,
       (now (pollForEmails 4 anonymous "box@vanish.host" 12000 5000 0
               never_arrives start).2
        < 1000 + 12000 + Z.of_N (elapsed (net never_arrives m)) + 5000
          + Z.of_N (lag never_arrives m))%Z.
Proof.
  assert (Hr : (pollForEmails 4 anonymous "box@vanish.host" 12000 5000 0
                  never_arrives start).1 = Ret None) by reflexivity.
  split; [exact Hr|]. split; [reflexivity|].
  destruct (poll_overshoot never_arrives anonymous "box@vanish.host" 12000 5000 0
              start 4 Hr) as [Hs|(m & _ & Hm)].
  - apply (f_equal now) in Hs. vm_compute in Hs. discriminate.
  - exists m. exact Hm.
Defined.
